(** * cscan: the commit-log parser and the statistics pass of [src/index.ts]

    A shallow embedding of the script.  Conventions:

    - a JavaScript string is a [string]; each [ascii] stands for one UTF-16
      code unit below 256, so [String.length] is the [.length] of the source;
    - a JavaScript number is modelled by the integer it holds ([Z], or [N] for
      the counts read by [parseInt]) on which the double arithmetic of the
      script is exact, together with [NaN] where the script can produce it;
      the share of an author, a quotient, is computed on binary64 numbers;
    - [null] and [undefined] are [None];
    - an uncaught exception is a value of [Error] on the left of a sum. *)

From Stdlib Require Import ZArith QArith Ascii String List DecimalString Sorted.
From Stdlib Require SpecFloat.
From stdpp Require Import base tactics option list gmap strings.

Set Warnings "-clear-no-such-hyp".

Local Open Scope string_scope.

(** ** JavaScript string primitives *)

Module JS.

(** The exceptions the script can raise and never catches. *)
Inductive Error :=
| TypeError
| RangeError.

Definition newline : ascii := Ascii.ascii_of_nat 10.
Definition nl : string := String newline "".

(** [s.startsWith(p)] *)
Fixpoint startsWith (p s : string) : bool :=
  match p, s with
  | EmptyString, _ => true
  | String a p', String b s' => if Ascii.eqb a b then startsWith p' s' else false
  | String _ _, EmptyString => false
  end.

(** [s.includes(p)] *)
Fixpoint includes (p s : string) : bool :=
  startsWith p s ||
  match s with
  | EmptyString => false
  | String _ s' => includes p s'
  end.

(** [s.endsWith(p)] *)
Fixpoint endsWith (p s : string) : bool :=
  String.eqb p s ||
  match s with
  | EmptyString => false
  | String _ s' => endsWith p s'
  end.

(** [s.split(sep)] for a non-empty string separator (the only use in the
    script): the separator is searched from left to right, a match closes
    the current piece and the scan resumes after it.  [skip] counts the
    code units of a matched separator that are still to be dropped. *)
Fixpoint split_from (sep : string) (skip : nat) (s : string) : list string :=
  match s with
  | EmptyString => [""]
  | String c s' =>
      match skip with
      | S k => split_from sep k s'
      | O =>
          if startsWith sep s
          then "" :: split_from sep (String.length sep - 1) s'
          else match split_from sep 0 s' with
               | piece :: pieces => String c piece :: pieces
               | [] => [String c ""]
               end
      end
  end.

Definition split (sep s : string) : list string := split_from sep 0 s.

(** White space of [String.prototype.trim] among the code units below 256:
    TAB, LF, VT, FF, CR, SP and NBSP. *)
Definition isWhiteSpace (c : ascii) : bool :=
  let n := Ascii.nat_of_ascii c in
  ((9 <=? n)%nat && (n <=? 13)%nat) || (n =? 32)%nat || (n =? 160)%nat.

Fixpoint trimStart (s : string) : string :=
  match s with
  | EmptyString => ""
  | String c s' => if isWhiteSpace c then trimStart s' else s
  end.

Fixpoint trimEnd (s : string) : string :=
  match s with
  | EmptyString => ""
  | String c s' =>
      match trimEnd s' with
      | EmptyString => if isWhiteSpace c then "" else String c ""
      | t => String c t
      end
  end.

Definition trim (s : string) : string := trimEnd (trimStart s).

(** The class [\d]. *)
Definition isDigit (c : ascii) : bool :=
  let n := Ascii.nat_of_ascii c in (48 <=? n)%nat && (n <=? 57)%nat.

(** The longest run of digits at the head of [s], and what follows it. *)
Fixpoint spanDigits (s : string) : string * string :=
  match s with
  | EmptyString => ("", "")
  | String c s' =>
      if isDigit c
      then let '(ds, rest) := spanDigits s' in (String c ds, rest)
      else ("", s)
  end.

(** [s.match(/(\d+) word/)], giving capture group 1 of the leftmost match.
    At a start position the greedy [\d+] takes the whole run of digits;
    giving a digit back cannot help, a digit is not a space. *)
Fixpoint matchCount (word : string) (s : string) : option string :=
  match s with
  | EmptyString => None
  | String _ s' =>
      let '(ds, rest) := spanDigits s in
      match ds with
      | String _ _ =>
          if startsWith (String " " word) rest then Some ds else matchCount word s'
      | EmptyString => matchCount word s'
      end
  end.

Definition digitValue (c : ascii) : N := N.of_nat (Ascii.nat_of_ascii c - 48).

(** [parseInt(ds)] on a run of decimal digits. *)
Definition parseInt (ds : string) : N :=
  fold_left (fun acc c => (acc * 10 + digitValue c)%N) (list_ascii_of_string ds) 0%N.

(** [Number.prototype.toString] on an integer below 10^21 in magnitude. *)
Definition Z_toString (z : Z) : string := NilZero.string_of_int (Z.to_int z).

End JS.

(** ** Numbers and dates *)

(** The numbers of the time statistics: integer milliseconds, or [NaN]. *)
Inductive number :=
| NaN
| Num (z : Z).

(** A [Date] object: its time value, or the invalid date. *)
Inductive Date :=
| InvalidDate
| TimeValue (ms : Z).

Module Number.

Definition MAX_SAFE_INTEGER : Z := 2 ^ 53 - 1.
Definition MIN_SAFE_INTEGER : Z := - (2 ^ 53 - 1).

(** [date.valueOf()] *)
Definition valueOf (d : Date) : number :=
  match d with
  | InvalidDate => NaN
  | TimeValue ms => Num ms
  end.

Definition sub (a b : number) : number :=
  match a, b with
  | Num x, Num y => Num (x - y)
  | _, _ => NaN
  end.

Definition add (a b : number) : number :=
  match a, b with
  | Num x, Num y => Num (x + y)
  | _, _ => NaN
  end.

(** [a > b] and [a < b]: false as soon as one side is [NaN]. *)
Definition gt (a b : number) : bool :=
  match a, b with
  | Num x, Num y => (y <? x)%Z
  | _, _ => false
  end.

Definition lt (a b : number) : bool :=
  match a, b with
  | Num x, Num y => (x <? y)%Z
  | _, _ => false
  end.

Definition toString (a : number) : string :=
  match a with
  | NaN => "NaN"
  | Num z => JS.Z_toString z
  end.

(** An array element that may be [undefined], used as an operand. *)
Definition ofElement (x : option number) : number :=
  match x with
  | Some a => a
  | None => NaN
  end.

(** A number as a result that may be fractional; [None] is [NaN]. *)
Definition toQ (a : number) : option Q :=
  match a with
  | NaN => None
  | Num z => Some (inject_Z z)
  end.

(** [a / n] for a positive count [n]; [None] is [NaN]. *)
Definition div (a : number) (n : positive) : option Q :=
  match a with
  | NaN => None
  | Num z => Some (inject_Z z / inject_Z (Z.pos n))%Q
  end.

End Number.

(** ** Data model *)

Record Commit := {
  hash : string;
  author : string;
  message : string;
  timestamp : Date;
  changes : N
}.

Record CommitTimeDifference := {
  difference : number;
  firstCommit : option Commit;
  secondCommit : option Commit
}.

(** ** The log parser (index.ts, lines 65 to 86) *)

Section Parser.

(** [new Date(time)] on the fourth line of a block: the date grammar
    accepted beyond ISO 8601 is the engine's, not the script's. *)
Variable newDate : string -> Date.

(** The separator the log format prints before each commit. *)
Definition delimiter : string := "." ++ JS.nl ++ ".".

(** [insertionsMatch ? parseInt(insertionsMatch[1]) : 0] *)
Definition countOf (word line : string) : N :=
  match JS.matchCount word line with
  | Some digits => JS.parseInt digits
  | None => 0%N
  end.

(** [email.split('@')[0]] *)
Definition authorOf (email : string) : string :=
  default "" (head (JS.split "@" email)).

(** The callback of [commitStrings.map].  With fewer than five lines
    [stats] is empty, [stats.pop()] is [undefined] and [changes.match]
    throws. *)
Definition processCommit (commit : string) : JS.Error + Commit :=
  match JS.split JS.nl commit with
  | hash :: email :: message :: time :: stats =>
      match last stats with
      | None => inl JS.TypeError
      | Some changes =>
          let insertions := countOf "insertion" changes in
          let deletions := countOf "deletion" changes in
          inr {| hash := hash;
                 author := authorOf email;
                 message := message;
                 timestamp := newDate time;
                 changes := (insertions + deletions)%N |}
      end
  | _ => inl JS.TypeError
  end.

(** [Array.prototype.map] with a callback that may throw: the first
    exception ends the loop. *)
Fixpoint mapE {A B} (f : A -> JS.Error + B) (l : list A) : JS.Error + list B :=
  match l with
  | [] => inr []
  | x :: l' =>
      match f x with
      | inl e => inl e
      | inr y =>
          match mapE f l' with
          | inl e => inl e
          | inr ys => inr (y :: ys)
          end
      end
  end.

(** [rawLog.toString().split('.\n.').map(commit => commit.trim())],
    then [shift()]. *)
Definition commitStrings (rawLog : string) : list string :=
  tail (map JS.trim (JS.split delimiter rawLog)).

Definition parseLog (rawLog : string) : JS.Error + list Commit :=
  mapE processCommit (commitStrings rawLog).

End Parser.

(** ** The statistics pass (index.ts, lines 134 to 218) *)

Module AuthorInfo.
Record t := { commitCount : N; changes : N }.
End AuthorInfo.

(** The variables the [forEach] over the commits updates. *)
Record Scan := {
  authors : gmap string AuthorInfo.t;
  meaningfulMessages : N;
  uniqueMessages : gset string;
  timeDifferences : list number;
  maxDifference : CommitTimeDifference;
  minDifference : CommitTimeDifference
}.

Definition initialScan : Scan := {|
  authors := ∅;
  meaningfulMessages := 0;
  uniqueMessages := ∅;
  timeDifferences := [];
  maxDifference := {| difference := Num Number.MIN_SAFE_INTEGER;
                      firstCommit := None; secondCommit := None |};
  minDifference := {| difference := Num Number.MAX_SAFE_INTEGER;
                      firstCommit := None; secondCommit := None |}
|}.

(** [array.forEach((x, idx) => ...)], the state passed along. *)
Fixpoint forEach_from {A St : Type} (f : St -> A -> nat -> St) (idx : nat) (l : list A) (s : St) : St :=
  match l with
  | [] => s
  | x :: l' => forEach_from f (S idx) l' (f s x idx)
  end.

Definition forEach {A St : Type} (f : St -> A -> nat -> St) (l : list A) (s : St) : St :=
  forEach_from f 0 l s.

Section Statistics.

(** [argv.threshold] *)
Variable threshold : Z.

(** The array the loop runs over; the body reads [commits[idx + 1]]. *)
Variable commits : list Commit.

Definition updateAuthors (m : gmap string AuthorInfo.t) (commit : Commit) : gmap string AuthorInfo.t :=
  match m !! author commit with
  | Some authorInfo =>
      <[author commit :=
          {| AuthorInfo.commitCount := AuthorInfo.commitCount authorInfo + 1;
             AuthorInfo.changes := AuthorInfo.changes authorInfo + changes commit |}]> m
  | None =>
      <[author commit :=
          {| AuthorInfo.commitCount := 1;
             AuthorInfo.changes := changes commit |}]> m
  end.

Definition updateMax (current : CommitTimeDifference) (d : number) (commit nextCommit : Commit) : CommitTimeDifference :=
  if Number.gt d (difference current)
  then {| difference := d; firstCommit := Some commit; secondCommit := Some nextCommit |}
  else current.

Definition updateMin (current : CommitTimeDifference) (d : number) (commit nextCommit : Commit) : CommitTimeDifference :=
  if Number.lt d (difference current)
  then {| difference := d; firstCommit := Some commit; secondCommit := Some nextCommit |}
  else current.

(** The body of [commits.forEach((commit, idx) => ...)]. *)
Definition scanCommit (s : Scan) (commit : Commit) (idx : nat) : Scan :=
  let authors' := updateAuthors (authors s) commit in
  let meaningful' :=
    if (threshold <? Z.of_nat (String.length (message commit)))%Z
    then (meaningfulMessages s + 1)%N
    else meaningfulMessages s in
  let unique' := {[ message commit ]} ∪ uniqueMessages s in
  match commits !! (idx + 1)%nat with
  | Some nextCommit =>
      let d := Number.sub (Number.valueOf (timestamp commit))
                          (Number.valueOf (timestamp nextCommit)) in
      {| authors := authors';
         meaningfulMessages := meaningful';
         uniqueMessages := unique';
         timeDifferences := timeDifferences s ++ [d];
         maxDifference := updateMax (maxDifference s) d commit nextCommit;
         minDifference := updateMin (minDifference s) d commit nextCommit |}
  | None =>
      {| authors := authors';
         meaningfulMessages := meaningful';
         uniqueMessages := unique';
         timeDifferences := timeDifferences s;
         maxDifference := maxDifference s;
         minDifference := minDifference s |}
  end.

Definition scan : Scan := forEach scanCommit commits initialScan.

End Statistics.

(** [commits.map(commit => commit.changes).reduce((a, b) => a + b)]: a
    [reduce] with no initial value throws on the empty array. *)
Definition totalChanges (commits : list Commit) : JS.Error + N :=
  match map changes commits with
  | [] => inl JS.TypeError
  | a :: rest => inr (fold_left N.add rest a)
  end.

(** [timeDifferences.sort()]: with no comparator the elements are ordered
    by their string forms, code unit by code unit.  The sort is stable; an
    element is entered before the first one whose string is not smaller. *)
Fixpoint sortInsert (x : number) (sorted : list number) : list number :=
  match sorted with
  | [] => [x]
  | y :: rest =>
      if String.ltb (Number.toString y) (Number.toString x)
      then y :: sortInsert x rest
      else x :: y :: rest
  end.

Definition sort (l : list number) : list number := foldr sortInsert [] l.

(** [array[i]], [undefined] out of range. *)
Definition element (l : list number) (i : Z) : option number :=
  if (i <? 0)%Z then None else l !! Z.to_nat i.

(** [Math.ceil(timeDifferences.length / 2)] *)
Definition midpointOf (l : list number) : Z := (Z.of_nat (length l) + 1) / 2.

(** [timeDifferences.reduce((a, b) => a + b) / timeDifferences.length] *)
Definition meanCommitTime (timeDifferences : list number) : JS.Error + option Q :=
  match timeDifferences with
  | [] => inl JS.TypeError
  | a :: rest =>
      inr (Number.div (fold_left Number.add rest a) (Pos.of_succ_nat (length rest)))
  end.

(** Lines 213 to 218, on the array as the loop left it; [None] is [NaN]. *)
Definition medianCommitTime (timeDifferences : list number) : option Q :=
  let sorted := sort timeDifferences in
  let midpoint := midpointOf sorted in
  if (Z.of_nat (length sorted) mod 2 =? 0)%Z
  then Number.div (Number.add (Number.ofElement (element sorted midpoint))
                              (Number.ofElement (element sorted (midpoint - 1)))) 2
  else Number.toQ (Number.ofElement (element sorted (midpoint - 1))).

(** ** The CSV export (index.ts, lines 94 to 127) *)

Module Path.

(** [process.platform], as far as [path.sep] depends on it. *)
Inductive Platform :=
| posix
| win32.

Definition sep (p : Platform) : string :=
  match p with
  | posix => "/"
  | win32 => String (Ascii.ascii_of_nat 92) ""
  end.

End Path.

(** Lines 96 to 104: the file the export is written to. *)
Definition outFile (platform : Path.Platform) (out : string) : string :=
  let outFile := if JS.endsWith (Path.sep platform) out then out ++ "commits.csv" else out in
  if negb (JS.endsWith ".csv" outFile) then outFile ++ ".csv" else outFile.

Module Replace.

(** The replacement text of [String.prototype.replace] for a string
    pattern: [$$], [$&], [$`] and [$'] are expanded, there is no capture
    group to refer to. *)
Fixpoint expand (matched before after replacement : string) : string :=
  match replacement with
  | EmptyString => ""
  | String c tl =>
      if negb (Ascii.eqb c "$") then String c (expand matched before after tl)
      else match tl with
           | EmptyString => "$"
           | String d tl' =>
               if Ascii.eqb d "$" then "$" ++ expand matched before after tl'
               else if Ascii.eqb d "&" then matched ++ expand matched before after tl'
               else if Ascii.eqb d "`" then before ++ expand matched before after tl'
               else if Ascii.eqb d "'" then after ++ expand matched before after tl'
               else "$" ++ expand matched before after tl
           end
  end.

(** [s.indexOf(pattern)] *)
Fixpoint indexOf (pattern s : string) : option nat :=
  if JS.startsWith pattern s then Some 0%nat
  else match s with
       | EmptyString => None
       | String _ s' => S <$> indexOf pattern s'
       end.

(** [s.replace(pattern, replacement)]: the first occurrence only. *)
Definition replace (pattern replacement s : string) : string :=
  match indexOf pattern s with
  | None => s
  | Some i =>
      let before := String.substring 0 i s in
      let after := String.substring (i + String.length pattern)
                     (String.length s - (i + String.length pattern)) s in
      before ++ expand pattern before after replacement ++ after
  end.

End Replace.

Section Csv.

(** [Date.prototype.toISOString] on a valid time value. *)
Variable toISOString : Z -> string.

(** [TEMPLATE.replace(/\$/g, '')] *)
Definition csvHeader : string := "hash,timestamp,author,changes,message".

Definition TEMPLATE : string := "$hash,$timestamp,$author,$changes,$message".

(** One row; [toISOString] throws on the invalid date. *)
Definition csvRow (commit : Commit) : JS.Error + string :=
  match timestamp commit with
  | InvalidDate => inl JS.RangeError
  | TimeValue ms =>
      inr (Replace.replace "$message" (message commit)
          (Replace.replace "$changes" (JS.Z_toString (Z.of_N (changes commit)))
          (Replace.replace "$author" (author commit)
          (Replace.replace "$timestamp" (toISOString ms)
          (Replace.replace "$hash" (hash commit) TEMPLATE)))))
  end.

Fixpoint csvRows (buffer : string) (commits : list Commit) : JS.Error + string :=
  match commits with
  | [] => inr buffer
  | commit :: rest =>
      match csvRow commit with
      | inl e => inl e
      | inr row => csvRows (buffer ++ JS.nl ++ row) rest
      end
  end.

Definition csvBuffer (commits : list Commit) : JS.Error + string :=
  csvRows csvHeader commits.

End Csv.

(** ** The script as a whole *)

(** What a run does to the outside world, in order. *)
Inductive Effect :=
| ExecSync (command : string)
| ConsoleError (text : string)
| ConsoleLog (text : string)
| WriteFileSync (file data : string).

(** How a run ends: [process.exit(code)] (or the end of the script, code 0),
    or an exception nobody catches. *)
Inductive Outcome :=
| Exit (code : Z)
| Uncaught (e : JS.Error).

(** A step of the script: the effects so far, then the end of the run or a
    value to go on with. *)
Definition Prog (A : Type) : Type := list Effect * (Outcome + A).

Module Prog.

Definition ret {A} (a : A) : Prog A := ([], inr a).

Definition bind {A B} (m : Prog A) (k : A -> Prog B) : Prog B :=
  match m with
  | (effects, inl o) => (effects, inl o)
  | (effects, inr a) => let '(effects', r) := k a in ((effects ++ effects')%list, r)
  end.

Definition perform (e : Effect) : Prog unit := ([e], inr tt).

Definition exit {A} (code : Z) : Prog A := ([], inl (Exit code)).

Definition throw {A} (e : JS.Error) : Prog A := ([], inl (Uncaught e)).

Definition liftE {A} (r : JS.Error + A) : Prog A :=
  match r with
  | inl e => throw e
  | inr a => ret a
  end.

Definition when (b : bool) (m : Prog unit) : Prog unit :=
  if b then m else ret tt.

(** The run of a whole script: falling off the end is exit code 0. *)
Definition run (m : Prog unit) : list Effect * Outcome :=
  match m with
  | (effects, inl o) => (effects, o)
  | (effects, inr _) => (effects, Exit 0)
  end.

End Prog.

#[global] Instance Prog_ret : MRet Prog := @Prog.ret.
#[global] Instance Prog_bind : MBind Prog := fun A B k m => Prog.bind m k.

Record Argv := {
  verbose : bool;
  concise : bool;
  threshold : Z;
  csv : bool;
  out : string;
  positional : option string
}.

Section Script.

(** The collaborators of the script. *)
Variable platform : Path.Platform.
(** [path.normalize] *)
Variable normalize : string -> string.
(** [execSync(command)]: the output of the command, [None] when it throws. *)
Variable execSync : string -> option string.
(** [writeFileSync(file, data)]: [false] when it throws. *)
Variable writeFileSync : string -> string -> bool.
Variable newDate : string -> Date.
Variable toISOString : Z -> string.
(** The text of the report, from the values it prints. *)
Variable render : Argv -> list Commit -> Scan -> N -> option Q -> option Q -> string.

Variable argv : Argv.

Definition dquote : string := String (Ascii.ascii_of_nat 34) "".

Definition gitLogCommand : string :=
  "cd " ++ normalize (default "" (positional argv)) ++
  " && git log --no-merges --format=" ++ dquote ++ ".%n.%H%n%ae%n%s%n%ci" ++ dquote ++ " --stat".

(** Lines 56 to 63. *)
Definition getLog : Prog string :=
  Prog.perform (ExecSync gitLogCommand) ;;
  match execSync gitLogCommand with
  | Some rawLog => Prog.ret rawLog
  | None => Prog.perform (ConsoleError "Unable to get commits!") ;; Prog.exit 1
  end.

(** Lines 89 to 92. *)
Definition checkOptions : Prog unit :=
  Prog.when (verbose argv && concise argv)
    (Prog.perform (ConsoleError "I can't be concise and verbose at the same time!") ;;
     Prog.exit 1).

(** Lines 95 to 127. *)
Definition exportCsv (commits : list Commit) : Prog unit :=
  Prog.when (csv argv)
    (let outFile := outFile platform (out argv) in
     buffer ← Prog.liftE (csvBuffer toISOString commits);
     Prog.perform (WriteFileSync outFile buffer) ;;
     if writeFileSync outFile buffer
     then Prog.perform (ConsoleLog ("Commit history saved to '" ++ outFile ++ "'.")) ;;
          Prog.exit 0
     else Prog.perform (ConsoleError ("Could not save file to '" ++ outFile ++ "'!")) ;;
          Prog.exit 1).

(** Lines 129 to 132. *)
Definition checkHistory (commits : list Commit) : Prog unit :=
  Prog.when (length commits <? 2)%nat
    (Prog.perform (ConsoleError
       "This repo only has one commit. I need at least two commits to provide a meaningful analysis.") ;;
     Prog.exit 1).

(** Lines 201 to 206, verbose mode: after [pop()] took the only commit of
    an author, [shift()] gives [undefined] and [smallest.hash] throws. *)
Definition authorDetailsThrow (s : Scan) : bool :=
  existsb (fun '(_, info) => (AuthorInfo.commitCount info =? 1)%N) (map_to_list (authors s)).

(** Lines 233 to 244, verbose mode: the commits of the extremes are read. *)
Definition isNull (c : option Commit) : bool :=
  match c with
  | Some _ => false
  | None => true
  end.

Definition extremesNull (s : Scan) : bool :=
  isNull (firstCommit (minDifference s)) || isNull (secondCommit (minDifference s))
  || isNull (firstCommit (maxDifference s)) || isNull (secondCommit (maxDifference s)).

(** Lines 134 to 255. *)
Definition report (commits : list Commit) : Prog unit :=
  let s := scan (threshold argv) commits in
  total ← Prog.liftE (totalChanges commits);
  Prog.when (verbose argv && authorDetailsThrow s) (Prog.throw JS.TypeError) ;;
  mean ← Prog.liftE (meanCommitTime (timeDifferences s));
  let median := medianCommitTime (timeDifferences s) in
  Prog.when (negb (concise argv) && verbose argv && extremesNull s) (Prog.throw JS.TypeError) ;;
  Prog.perform (ConsoleLog (render argv commits s total mean median)).

Definition script : Prog unit :=
  rawLog ← getLog;
  commits ← Prog.liftE (parseLog newDate rawLog);
  checkOptions ;;
  exportCsv commits ;;
  checkHistory commits ;;
  report commits.

Definition main : list Effect * Outcome := Prog.run script.

End Script.

(** * The vocabulary of the properties *)

(** ** Adjacent pairs and the running extremes *)

(** The pairs [(commits[i], commits[i + 1])], in the order of the log. *)
Fixpoint adjacentPairs (l : list Commit) : list (Commit * Commit) :=
  match l with
  | a :: (b :: _) as tl => (a, b) :: adjacentPairs tl
  | _ => []
  end.

Definition differenceOf (p : Commit * Commit) : number :=
  Number.sub (Number.valueOf (timestamp p.1)) (Number.valueOf (timestamp p.2)).

Definition isMeaningful (threshold : Z) (c : Commit) : Prop :=
  (threshold < Z.of_nat (String.length (message c)))%Z.

#[global] Instance isMeaningful_dec threshold c : Decision (isMeaningful threshold c) :=
  Z.lt_dec threshold (Z.of_nat (String.length (message c))).

Definition stepMax (cur : CommitTimeDifference) (p : Commit * Commit) : CommitTimeDifference :=
  updateMax cur (differenceOf p) p.1 p.2.

Definition stepMin (cur : CommitTimeDifference) (p : Commit * Commit) : CommitTimeDifference :=
  updateMin cur (differenceOf p) p.1 p.2.

Section Selection.

(** The comparison of the update, [Number.gt] for the maximum and
    [Number.lt] for the minimum. *)
Variable better : number -> number -> bool.

Definition stepWith (cur : CommitTimeDifference) (p : Commit * Commit) : CommitTimeDifference :=
  if better (differenceOf p) (difference cur)
  then {| difference := differenceOf p; firstCommit := Some p.1; secondCommit := Some p.2 |}
  else cur.

(** What the fold holds after the pairs [ps]: the start value when no
    pair beat it, else the first pair that no other pair beats. *)
Inductive Selected (cur : CommitTimeDifference) (ps : list (Commit * Commit)) :
  CommitTimeDifference → Prop :=
| Selected_none :
    (∀ p, p ∈ ps → better (differenceOf p) (difference cur) = false) →
    Selected cur ps cur
| Selected_pair (i : nat) (a b : Commit) :
    ps !! i = Some (a, b) →
    better (differenceOf (a, b)) (difference cur) = true →
    (∀ p, p ∈ ps → better (differenceOf p) (differenceOf (a, b)) = false) →
    (∀ j p, (j < i)%nat → ps !! j = Some p →
            better (differenceOf (a, b)) (differenceOf p) = true ∨ differenceOf p = NaN) →
    Selected cur ps {| difference := differenceOf (a, b);
                       firstCommit := Some a; secondCommit := Some b |}.

End Selection.

(** Every adjacent difference is a number strictly between the two start
    values of the running extremes. *)
Definition safeDifferences (commits : list Commit) : Prop :=
  ∀ i a b, commits !! i = Some a → commits !! S i = Some b →
    ∃ d, differenceOf (a, b) = Num d
         ∧ (Number.MIN_SAFE_INTEGER < d < Number.MAX_SAFE_INTEGER)%Z.

(** The time values of the dates of a log that [Date] can read: not before
    the epoch, and within the range of [Date]. *)
Definition epochDates (commits : list Commit) : Prop :=
  ∀ c, c ∈ commits → ∃ t, timestamp c = TimeValue t ∧ (0 ≤ t ≤ 8640000000000000)%Z.

(** ** The median of the specification *)

(** The median in the words of the specification: the differences in
    ascending numeric order, then the middle one, or the mean of the two at
    [midpoint] and [midpoint - 1]. *)
Fixpoint insertNumeric (x : Z) (sorted : list Z) : list Z :=
  match sorted with
  | [] => [x]
  | y :: rest => if (y <? x)%Z then y :: insertNumeric x rest else x :: y :: rest
  end.

Definition position (sorted : list Z) (i : Z) : option Z :=
  if (i <? 0)%Z then None else sorted !! Z.to_nat i.

Definition medianOfSpec (differences : list Z) : option Q :=
  let sorted := foldr insertNumeric [] differences in
  let midpoint := ((Z.of_nat (length sorted) + 1) / 2)%Z in
  if (Z.of_nat (length sorted) mod 2 =? 0)%Z
  then match position sorted midpoint, position sorted (midpoint - 1) with
       | Some a, Some b => Some (inject_Z (a + b) / inject_Z 2)%Q
       | _, _ => None
       end
  else inject_Z <$> position sorted (midpoint - 1).

(** ** The text of a log *)

(** One entry of the log as the format string of line 59 and [--stat] print
    it, after the delimiter: four header lines, a blank line, a line for
    each file and the summary line. *)
Record Block := {
  blockHash : string;
  blockEmail : string;
  blockSubject : string;
  blockDate : string;
  blockFiles : list string;
  blockSummary : string
}.

Definition blockLines (b : Block) : list string :=
  ([blockHash b; blockEmail b; blockSubject b; blockDate b; ""]
   ++ blockFiles b ++ [blockSummary b])%list.

Definition joinLines (lines : list string) : string := String.concat JS.nl lines.

(** The lines, the end of the last line and the blank line git leaves
    between two entries. *)
Definition blockText (b : Block) : string := joinLines (blockLines b) ++ JS.nl ++ JS.nl.

Fixpoint logText (blocks : list Block) : string :=
  match blocks with
  | [] => ""
  | b :: rest => delimiter ++ blockText b ++ logText rest
  end.

(** A block is well formed when its fields are single lines, the hash
    starts with a character that is not white space, the summary is not
    empty and ends with one, and the delimiter occurs nowhere in its text,
    the first two characters of a following delimiter included. *)
Record WellFormed (b : Block) : Prop := {
  wf_lines : ∀ l, l ∈ blockLines b → JS.includes JS.nl l = false;
  wf_hash : ∃ c s, blockHash b = String c s ∧ JS.isWhiteSpace c = false;
  wf_summary : blockSummary b ≠ "" ∧ JS.trimEnd (blockSummary b) = blockSummary b;
  wf_delimiter : JS.includes delimiter (blockText b ++ "." ++ JS.nl) = false
}.

(** The same as a test. *)
Definition wellFormedb (b : Block) : bool :=
  forallb (λ l, negb (JS.includes JS.nl l)) (blockLines b)
  && match blockHash b with
     | String c _ => negb (JS.isWhiteSpace c)
     | EmptyString => false
     end
  && negb (String.eqb (blockSummary b) "")
  && String.eqb (JS.trimEnd (blockSummary b)) (blockSummary b)
  && negb (JS.includes delimiter (blockText b ++ "." ++ JS.nl)).

(** The commit a well-formed block stands for. *)
Definition commitOfBlock (newDate : string → Date) (b : Block) : Commit :=
  {| hash := blockHash b;
     author := authorOf (blockEmail b);
     message := blockSubject b;
     timestamp := newDate (blockDate b);
     changes := countOf "insertion" (blockSummary b) + countOf "deletion" (blockSummary b) |}.


(** The last code unit of a string. *)
Fixpoint lastUnit (s : string) : option ascii :=
  match s with
  | EmptyString => None
  | String c EmptyString => Some c
  | String _ s' => lastUnit s'
  end.

(** * Logs, commits and runs of the examples *)

Definition commitAt (h : string) (t : Date) : Commit :=
  {| hash := h; author := "dev"; message := "update the parser"; timestamp := t; changes := 3 |}.

(** Three commits, newest first: T, T - 1000 ms and T - 5000 ms. *)
Definition threeCommits : list Commit :=
  [ commitAt "c3" (TimeValue 1700000005000);
    commitAt "c2" (TimeValue 1700000004000);
    commitAt "c1" (TimeValue 1700000000000) ].

(** Four commits, 90 s, 100 s and 200 s apart. *)
Definition fourCommits : list Commit :=
  [ commitAt "d4" (TimeValue 1614852390000);
    commitAt "c3" (TimeValue 1614852300000);
    commitAt "b2" (TimeValue 1614852200000);
    commitAt "a1" (TimeValue 1614852000000) ].

(** Two commits, the date of the older one a date that [Date] cannot read. *)
Definition withInvalidDate : list Commit :=
  [ commitAt "4f2a9c1e" (TimeValue 1614852000000);
    commitAt "9d3e5f70" InvalidDate ].

Definition exampleBlock1 : Block :=
  {| blockHash := "4f2a9c1e";
     blockEmail := "dev@example.com";
     blockSubject := "Add the log parser";
     blockDate := "2021-03-04 10:00:00 +0000";
     blockFiles := [" src/index.ts | 14 ++++++++++----"; " README.md    |  2 ++"];
     blockSummary := " 2 files changed, 12 insertions(+), 4 deletions(-)" |}.

Definition exampleBlock2 : Block :=
  {| blockHash := "9d3e5f70";
     blockEmail := "ops";
     blockSubject := "";
     blockDate := "2021-03-01 08:30:00 +0000";
     blockFiles := [" .gitignore | 5 +++++"];
     blockSummary := " 1 file changed, 5 insertions(+)" |}.

(** A commit that touches a binary file only: git prints its summary with
    zero insertions and zero deletions. *)
Definition binaryBlock (h : string) : Block :=
  {| blockHash := h;
     blockEmail := "dev@example.com";
     blockSubject := "Update the logo";
     blockDate := "2021-03-04 10:00:00 +0000";
     blockFiles := [" logo.png | Bin 1024 -> 2048 bytes"];
     blockSummary := " 1 file changed, 0 insertions(+), 0 deletions(-)" |}.

Definition blockDated (h time : string) : Block :=
  {| blockHash := h;
     blockEmail := "dev@example.com";
     blockSubject := "Add the log parser";
     blockDate := time;
     blockFiles := [" src/index.ts | 3 +++"];
     blockSummary := " 1 file changed, 3 insertions(+)" |}.

(** The log of three commits of which the second changes no file
    ([git commit --allow-empty]): [--stat] prints nothing for it. *)
Definition logWithEmptyCommit : string :=
  delimiter ++ blockText exampleBlock1
  ++ delimiter ++ "71c0a2b4" ++ JS.nl ++ "dev@example.com" ++ JS.nl
     ++ "Trigger the build" ++ JS.nl ++ "2021-03-02 09:15:00 +0000" ++ JS.nl
  ++ delimiter ++ blockText exampleBlock2.

(** The date reader of the examples: one date of the log, anything else
    is no date. *)
Definition exampleDate (time : string) : Date :=
  if String.eqb time "2021-03-04 10:00:00 +0000" then TimeValue 1614852000000
  else InvalidDate.

Definition bothModes : Argv :=
  {| verbose := true; concise := true; threshold := 10; csv := false;
     out := "commits.csv"; positional := None |}.

Definition verboseMode : Argv :=
  {| verbose := true; concise := false; threshold := 10; csv := false;
     out := "commits.csv"; positional := None |}.

Definition exportTo (path : string) : Argv :=
  {| verbose := false; concise := false; threshold := 10; csv := true;
     out := path; positional := None |}.

(** A working directory that is no repository, and one with two commits. *)
Definition noRepository : string → option string := λ _, None.

Definition twoCommitRepository : string → option string :=
  λ _, Some (logText [exampleBlock1; exampleBlock2]).

Definition plainReport : Argv → list Commit → Scan → N → option Q → option Q → string :=
  λ _ _ _ _ _ _, "report".

(** * The rest of the script *)

(** ** Utility functions (index.ts, lines 261 to 283) *)

(** [pluralize(str, num)] *)
Definition pluralize (str : string) (num : Z) : string :=
  str ++ (if (num =? 1)%Z then "" else "s").

(** The constants [y], [d], [h], [m] and [s] of [prettyPrintTimeSpan]. *)
Record TimeSpan := {
  years : Z;
  days : Z;
  hours : Z;
  minutes : Z;
  seconds : Z
}.

(** Lines 266 to 274, on a whole number of milliseconds: [Math.floor] of a
    quotient is the floor division of [Z]. *)
Definition timeSpanOf (time : Z) : TimeSpan :=
  let y := (time / 31536000000)%Z in
  let time := (time - y * 31536000000)%Z in
  let d := (time / 86400000)%Z in
  let time := (time - d * 86400000)%Z in
  let h := (time / 3600000)%Z in
  let time := (time - h * 3600000)%Z in
  let m := (time / 60000)%Z in
  let time := (time - m * 60000)%Z in
  let s := (time / 1000)%Z in
  {| years := y; days := d; hours := h; minutes := m; seconds := s |}.

(** [value && `${value} ${pluralize(unit, value)}`]: the value 0 is what
    the expression gives for 0, and [filter(Boolean)] drops it. *)
Definition spanPart (value : Z) (unit : string) : option string :=
  if (value =? 0)%Z then None
  else Some (JS.Z_toString value ++ " " ++ pluralize unit value).

(** [prettyPrintTimeSpan(time)] for the whole numbers of milliseconds, and
    for [NaN]: all five counts are then [NaN], which [filter(Boolean)] drops
    as well. *)
Definition prettyPrintTimeSpan (time : number) : string :=
  match time with
  | NaN => "under a second"
  | Num t =>
      let span := timeSpanOf t in
      let parts := omap id [ spanPart (years span) "year";
                             spanPart (days span) "day";
                             spanPart (hours span) "hour";
                             spanPart (minutes span) "minute";
                             spanPart (seconds span) "second" ] in
      match String.concat ", " parts with
      | EmptyString => "under a second"
      | text => text
      end
  end.

(** ** The vocabulary of the further properties *)

(** The commits of one author, in the order of the log. *)
Definition commitsBy (a : string) (commits : list Commit) : list Commit :=
  filter (λ c, author c = a) commits.

Definition sumChanges (commits : list Commit) : N :=
  foldr N.add 0%N (map changes commits).

(** An entry of the author map after more commits of its author. *)
Definition tally (entry : option AuthorInfo.t) (commits : list Commit) : option AuthorInfo.t :=
  foldl (λ entry c,
           Some match entry with
                | Some info =>
                    {| AuthorInfo.commitCount := AuthorInfo.commitCount info + 1;
                       AuthorInfo.changes := AuthorInfo.changes info + changes c |}
                | None =>
                    {| AuthorInfo.commitCount := 1; AuthorInfo.changes := changes c |}
                end)
        entry commits.

(** The sum of a field over the entries of the author map. *)
Definition sumOver (f : AuthorInfo.t → N) (m : gmap string AuthorInfo.t) : N :=
  map_fold (λ _ info acc, (f info + acc)%N) 0%N m.

(** The order [sort()] puts the differences in: that of their strings. *)
Definition byString (x y : number) : Prop :=
  String.leb (Number.toString x) (Number.toString y) = true.


(** A text without the character [$], which [replace] gives a meaning to. *)
Definition noDollar (s : string) : Prop := JS.includes "$" s = false.

(** A row of the export: the five columns, a comma between them. *)
Definition csvLine (iso : string) (c : Commit) : string :=
  hash c ++ "," ++ iso ++ "," ++ author c ++ ","
  ++ JS.Z_toString (Z.of_N (changes c)) ++ "," ++ message c.

(** The text of the date in the row of a commit. *)
Definition isoText (toISOString : Z → string) (c : Commit) : string :=
  match timestamp c with
  | TimeValue ms => toISOString ms
  | InvalidDate => ""
  end.

(** A commit whose row needs no care: a valid date, and no [$] in a text. *)
Definition plainCommit (toISOString : Z → string) (c : Commit) : Prop :=
  timestamp c ≠ InvalidDate ∧ noDollar (hash c) ∧ noDollar (isoText toISOString c)
  ∧ noDollar (author c) ∧ noDollar (message c).

(** The options of a run with no flag set. *)
Definition plainMode : Argv :=
  {| verbose := false; concise := false; threshold := 10; csv := false;
     out := "commits.csv"; positional := None |}.

(** ** The percentages of the report (index.ts, lines 197, 210 and 211) *)

(** The binary64 numbers of JavaScript, for the quotients of the report,
    which are no whole numbers: the operations are those of IEEE 754 with
    53 bits of precision, rounding to nearest, ties to even. *)
Module Double.

Definition t : Type := SpecFloat.spec_float.

Definition prec : Z := 53.
Definition emax : Z := 1024.

Definition NaN : t := SpecFloat.S754_nan.
Definition Infinity : t := SpecFloat.S754_infinity false.

(** The double nearest to a whole number, the number itself below 2^53. *)
Definition ofZ (z : Z) : t := SpecFloat.binary_normalize prec emax z 0 false.

Definition ofN (n : N) : t := ofZ (Z.of_N n).

(** [x / y] and [x * y] *)
Definition div (x y : t) : t := SpecFloat.SFdiv prec emax x y.

Definition mul (x y : t) : t := SpecFloat.SFmul prec emax x y.

(** [Math.round(x)]: the whole number nearest to [x], the larger one of two
    that are as near; NaN, the infinities and the zeros are returned as they
    are, and a negative [x] that rounds to zero gives the negative zero. *)
Definition round (x : t) : t :=
  match x with
  | SpecFloat.S754_finite s m e =>
      if (0 <=? e)%Z then x
      else
        let n := if s then Z.neg m else Z.pos m in
        let r := ((2 * n + 2 ^ (- e)) / 2 ^ (- e + 1))%Z in
        if (r =? 0)%Z then SpecFloat.S754_zero s else ofZ r
  | _ => x
  end.

End Double.

(** Line 197: [Math.round((changes / totalChanges) * 100)]. *)
Definition changePercent (changes totalChanges : N) : Double.t :=
  Double.round (Double.mul (Double.div (Double.ofN changes) (Double.ofN totalChanges))
                           (Double.ofN 100)).

(** ** Logs on which the script fails *)

(** A committer date after the last day of [Date]. *)
Definition farFutureDate : string := "300000-01-01 00:00:00 +0000".

(** The log of two commits of one author, the older one with that date. *)
Definition unreadableDateLog : string :=
  logText [blockDated "4f2a9c1e" "2021-03-04 10:00:00 +0000";
           blockDated "9d3e5f70" farFutureDate].

(** The log of a repository whose only commit changes no file
    ([git commit --allow-empty]): the four lines of the format, and no
    diffstat. *)
Definition logOfEmptyCommit : string :=
  delimiter ++ "71c0a2b4" ++ JS.nl ++ "dev@example.com" ++ JS.nl
  ++ "Initial commit" ++ JS.nl ++ "2021-03-04 10:00:00 +0000" ++ JS.nl.

(** The log of two commits that touch a binary file only. *)
Definition binaryCommitsLog : string :=
  logText [binaryBlock "4f2a9c1e"; binaryBlock "9d3e5f70"].

(** * Properties *)

(** ** The statistics pass as folds over the commits *)

Lemma adjacentPairs_lookup (l : list Commit) (i : nat) (a b : Commit) :
  adjacentPairs l !! i = Some (a, b) ↔ l !! i = Some a ∧ l !! S i = Some b.
Proof.
  revert i. induction l as [|x [|y l'] IH]; intros i.
  - simpl. split; [done | intros [? _]; done].
  - simpl. split; [done |]. intros [_ H]. by destruct i.
  - destruct i as [|i].
    + simpl. split; [intros [= -> ->]; done | intros [[= ->] [= ->]]; done].
    + change (adjacentPairs (x :: y :: l') !! S i) with (adjacentPairs (y :: l') !! i).
      rewrite IH. done.
Qed.

Lemma adjacentPairs_length (l : list Commit) :
  length (adjacentPairs l) = (length l - 1)%nat.
Proof.
  induction l as [|x [|y l'] IH]; [done | done |].
  change (adjacentPairs (x :: y :: l')) with ((x, y) :: adjacentPairs (y :: l')).
  simpl in *. lia.
Qed.

Section ScanFolds.

Variable threshold : Z.
Variable commits : list Commit.

(** The loop from index [length pre] on, when [pre] is what it has
    already visited. *)
Lemma forEach_from_scanCommit (rest pre : list Commit) (s : Scan) :
  commits = (pre ++ rest)%list →
  forEach_from (scanCommit threshold commits) (length pre) rest s =
  {| authors := foldl updateAuthors (authors s) rest;
     meaningfulMessages :=
       (meaningfulMessages s + N.of_nat (length (filter (isMeaningful threshold) rest)))%N;
     uniqueMessages := list_to_set (message <$> rest) ∪ uniqueMessages s;
     timeDifferences := (timeDifferences s ++ (differenceOf <$> adjacentPairs rest))%list;
     maxDifference := foldl stepMax (maxDifference s) (adjacentPairs rest);
     minDifference := foldl stepMin (minDifference s) (adjacentPairs rest) |}.
Proof.
  revert pre s. induction rest as [|c rest IH]; intros pre s Hc.
  - destruct s. simpl. f_equal; [lia | set_solver | by rewrite app_nil_r].
  - cbn [forEach_from].
    specialize (IH (pre ++ [c])%list).
    rewrite length_app, Nat.add_1_r in IH. rewrite IH by (rewrite <- app_assoc; done).
    clear IH.
    assert (Hnext : commits !! (length pre + 1)%nat = head rest).
    { rewrite Hc, lookup_app_r by lia.
      replace (length pre + 1 - length pre)%nat with 1%nat by lia.
      by destruct rest. }
    assert (Hm : ((if (threshold <? Z.of_nat (String.length (message c)))%Z
                   then (meaningfulMessages s + 1)%N else meaningfulMessages s)
                  + N.of_nat (length (filter (isMeaningful threshold) rest)))%N
                 = (meaningfulMessages s
                    + N.of_nat (length (filter (isMeaningful threshold) (c :: rest))))%N).
    { rewrite filter_cons. unfold isMeaningful at 2.
      destruct (Z.ltb_spec threshold (Z.of_nat (String.length (message c))));
        case_decide; try lia; simpl; lia. }
    unfold scanCommit. rewrite Hnext.
    destruct rest as [|n rest]; cbn [head]; cbn [authors meaningfulMessages
      uniqueMessages timeDifferences maxDifference minDifference]; rewrite Hm.
    + f_equal. set_solver.
    + f_equal; [set_solver | by rewrite <- app_assoc].
Qed.

Lemma scan_folds :
  scan threshold commits =
  {| authors := foldl updateAuthors ∅ commits;
     meaningfulMessages := N.of_nat (length (filter (isMeaningful threshold) commits));
     uniqueMessages := list_to_set (message <$> commits);
     timeDifferences := differenceOf <$> adjacentPairs commits;
     maxDifference := foldl stepMax (maxDifference initialScan) (adjacentPairs commits);
     minDifference := foldl stepMin (minDifference initialScan) (adjacentPairs commits) |}.
Proof.
  unfold scan, forEach.
  etrans; [apply (forEach_from_scanCommit commits [] initialScan eq_refl) |].
  cbn [initialScan authors meaningfulMessages uniqueMessages timeDifferences].
  f_equal. set_solver.
Qed.

End ScanFolds.

(** ** The running extremes *)

Section Extremes.

(** The comparison of the update, [Number.gt] for the maximum and
    [Number.lt] for the minimum. *)
Variable better : number -> number -> bool.

Hypothesis better_irrefl : ∀ x, better x x = false.
Hypothesis better_trans :
  ∀ x y z, better x y = false → better z y = true → better x z = false.
Hypothesis better_total :
  ∀ x y z, better x y = false → better z y = true → better z x = true ∨ x = NaN.

Lemma Selected_snoc_better cur ps r a b :
  Selected better cur ps r →
  better (differenceOf (a, b)) (difference r) = true →
  Selected better cur (ps ++ [(a, b)])
    {| difference := differenceOf (a, b); firstCommit := Some a; secondCommit := Some b |}.
Proof.
  intros Hsel Hb.
  assert (Hold : ∀ q, q ∈ ps → better (differenceOf q) (difference r) = false).
  { destruct Hsel as [Hall | i a' b' Hi Hgt Hall Hfirst]; [exact Hall | exact Hall]. }
  apply (Selected_pair better cur (ps ++ [(a, b)]) (length ps) a b).
  - rewrite lookup_app_r by lia. by rewrite Nat.sub_diag.
  - destruct Hsel as [Hall | i a' b' Hi Hgt Hall Hfirst]; [done |].
    simpl in Hb.
    destruct (better (differenceOf (a, b)) (difference cur)) eqn:Hc; [done |].
    by rewrite (better_trans _ _ _ Hc Hgt) in Hb.
  - intros q [Hq | Hq]%elem_of_app.
    + eapply better_trans; [by apply Hold | exact Hb].
    + apply list_elem_of_singleton in Hq as ->. apply better_irrefl.
  - intros j p Hj Hp. rewrite lookup_app_l in Hp by done.
    eapply better_total; [| exact Hb].
    apply Hold. by eapply list_elem_of_lookup_2.
Qed.

Lemma Selected_snoc_keep cur ps r p :
  Selected better cur ps r →
  better (differenceOf p) (difference r) = false →
  Selected better cur (ps ++ [p]) r.
Proof.
  intros Hsel Hb.
  destruct Hsel as [Hall | i a b Hi Hgt Hall Hfirst].
  - apply Selected_none. intros q [Hq | Hq]%elem_of_app; [by apply Hall |].
    by apply list_elem_of_singleton in Hq as ->.
  - apply (Selected_pair better cur (ps ++ [p]) i a b).
    + rewrite lookup_app_l; [done |]. by eapply lookup_lt_Some.
    + done.
    + intros q [Hq | Hq]%elem_of_app; [by apply Hall |].
      by apply list_elem_of_singleton in Hq as ->.
    + intros j q Hj Hq. apply (Hfirst j q Hj).
      rewrite lookup_app_l in Hq; [done |].
      apply lookup_lt_Some in Hi. lia.
Qed.

Lemma foldl_stepWith_Selected (cur : CommitTimeDifference) (ps : list (Commit * Commit)) :
  Selected better cur ps (foldl (stepWith better) cur ps).
Proof.
  induction ps as [|p ps IH] using rev_ind.
  - apply Selected_none. intros p Hp. by apply elem_of_nil in Hp.
  - rewrite foldl_app. simpl. unfold stepWith at 1.
    destruct (better (differenceOf p) (difference (foldl (stepWith better) cur ps))) eqn:Hb.
    + destruct p as [a b]. by eapply Selected_snoc_better.
    + by apply Selected_snoc_keep.
Qed.

End Extremes.

Lemma gt_irrefl x : Number.gt x x = false.
Proof. destruct x; simpl; [done | apply Z.ltb_irrefl]. Qed.

Lemma gt_trans x y z : Number.gt x y = false → Number.gt z y = true → Number.gt x z = false.
Proof. destruct x, y, z; simpl; try done. intros. lia. Qed.

Lemma gt_total x y z :
  Number.gt x y = false → Number.gt z y = true → Number.gt z x = true ∨ x = NaN.
Proof. destruct x, y, z; simpl; try done; auto. intros. left. lia. Qed.

Lemma lt_irrefl x : Number.lt x x = false.
Proof. destruct x; simpl; [done | apply Z.ltb_irrefl]. Qed.

Lemma lt_trans x y z : Number.lt x y = false → Number.lt z y = true → Number.lt x z = false.
Proof. destruct x, y, z; simpl; try done. intros. lia. Qed.

Lemma lt_total x y z :
  Number.lt x y = false → Number.lt z y = true → Number.lt z x = true ∨ x = NaN.
Proof. destruct x, y, z; simpl; try done; auto. intros. left. lia. Qed.

Lemma maxDifference_Selected threshold commits :
  Selected Number.gt (maxDifference initialScan) (adjacentPairs commits)
    (maxDifference (scan threshold commits)).
Proof.
  rewrite scan_folds. cbn [maxDifference].
  apply (foldl_stepWith_Selected Number.gt gt_irrefl gt_trans gt_total).
Qed.

Lemma minDifference_Selected threshold commits :
  Selected Number.lt (minDifference initialScan) (adjacentPairs commits)
    (minDifference (scan threshold commits)).
Proof.
  rewrite scan_folds. cbn [minDifference].
  apply (foldl_stepWith_Selected Number.lt lt_irrefl lt_trans lt_total).
Qed.

(** ** Message metrics *)

(** C7.  After the pass, [meaningfulMessages] is the number of commits whose
    message has more code units than the threshold (strictly more), and
    [uniqueMessages] holds exactly the messages of the commits, so its size is
    the number of distinct message strings under exact string equality: no
    case folding and no trimming.  With threshold 10, messages of lengths 5,
    11 and 10 count for one. *)
Theorem message_metrics (threshold : Z) (commits : list Commit) :
  meaningfulMessages (scan threshold commits)
  = N.of_nat (length (filter
      (λ c, (threshold < Z.of_nat (String.length (message c)))%Z) commits))
  ∧ (∀ m, m ∈ uniqueMessages (scan threshold commits) ↔ ∃ c, c ∈ commits ∧ message c = m)
  ∧ size (uniqueMessages (scan threshold commits)) = length (remove_dups (message <$> commits))
  ∧ (∀ a b c,
       String.length (message a) = 5%nat →
       String.length (message b) = 11%nat →
       String.length (message c) = 10%nat →
       meaningfulMessages (scan 10 [a; b; c]) = 1%N)
  ∧ (∀ a b c d,
       message a = "fix" → message b = "Fix" → message c = "fix " → message d = "fix" →
       size (uniqueMessages (scan threshold [a; b; c; d])) = 3%nat).
Proof.
  assert (Hsize : ∀ l : list Commit,
    size (uniqueMessages (scan threshold l)) = length (remove_dups (message <$> l))).
  { intros l. rewrite scan_folds. cbn [uniqueMessages].
    rewrite <- (size_list_to_set (C := gset string) (remove_dups (message <$> l)))
      by apply NoDup_remove_dups.
    f_equal. apply set_eq. intros m.
    by rewrite !elem_of_list_to_set, elem_of_remove_dups. }
  split; [| split; [| split; [| split]]].
  - rewrite scan_folds. done.
  - intros m. rewrite scan_folds. cbn [uniqueMessages].
    rewrite elem_of_list_to_set, list_elem_of_fmap. naive_solver.
  - apply Hsize.
  - intros a b c Ha Hb Hc. rewrite scan_folds. cbn [meaningfulMessages].
    rewrite !filter_cons, filter_nil. unfold isMeaningful.
    repeat case_decide; simpl; lia.
  - intros a b c d Ha Hb Hc Hd. rewrite Hsize. simpl. rewrite Ha, Hb, Hc, Hd.
    done.
Qed.

(** ** Time differences and their extremes *)

Lemma epochDates_safeDifferences commits : epochDates commits → safeDifferences commits.
Proof.
  intros H i a b Ha Hb.
  destruct (H a) as (ta & Hta & ?); [by eapply list_elem_of_lookup_2 |].
  destruct (H b) as (tb & Htb & ?); [by eapply list_elem_of_lookup_2 |].
  exists (ta - tb)%Z. unfold differenceOf. simpl. rewrite Hta, Htb. simpl.
  split; [done |]. unfold Number.MIN_SAFE_INTEGER, Number.MAX_SAFE_INTEGER. lia.
Qed.

Lemma timeDifferences_lookup threshold commits i a b :
  commits !! i = Some a → commits !! S i = Some b →
  timeDifferences (scan threshold commits) !! i = Some (differenceOf (a, b)).
Proof.
  intros Ha Hb. rewrite scan_folds. cbn [timeDifferences].
  rewrite list_lookup_fmap.
  by rewrite (proj2 (adjacentPairs_lookup commits i a b) (conj Ha Hb)).
Qed.

Lemma timeDifferences_lookup_inv threshold commits j e :
  timeDifferences (scan threshold commits) !! j = Some e →
  ∃ p, adjacentPairs commits !! j = Some p ∧ differenceOf p = e.
Proof.
  rewrite scan_folds. cbn [timeDifferences]. rewrite list_lookup_fmap.
  destruct (adjacentPairs commits !! j) as [p|]; [| done].
  intros [= <-]. by exists p.
Qed.

Lemma timeDifferences_length threshold commits :
  length (timeDifferences (scan threshold commits)) = (length commits - 1)%nat.
Proof.
  rewrite scan_folds. cbn [timeDifferences].
  by rewrite length_fmap, adjacentPairs_length.
Qed.

Lemma first_pair (commits : list Commit) :
  (2 ≤ length commits)%nat → ∃ a b, commits !! 0%nat = Some a ∧ commits !! 1%nat = Some b.
Proof.
  destruct commits as [|a [|b l]]; simpl; intros; try lia. by exists a, b.
Qed.

(** X24.  For a commit sequence of length at least 2 whose adjacent
    differences are all numbers strictly between MIN_SAFE_INTEGER and
    MAX_SAFE_INTEGER: the pass records one signed difference per adjacent
    pair, in the order of the log, [timestamp[i] - timestamp[i+1]] with its
    sign; [maxDifference] is the first pair with the largest difference and
    [minDifference] the first pair with the smallest, each with its two
    commits. *)
Theorem time_differences_and_extremes (threshold : Z) (commits : list Commit) :
  (2 ≤ length commits)%nat →
  safeDifferences commits →
  length (timeDifferences (scan threshold commits)) = (length commits - 1)%nat
  ∧ (∀ i a b, commits !! i = Some a → commits !! S i = Some b →
       ∃ ta tb, timestamp a = TimeValue ta ∧ timestamp b = TimeValue tb
                ∧ timeDifferences (scan threshold commits) !! i = Some (Num (ta - tb)))
  ∧ (∃ i a b d,
       commits !! i = Some a ∧ commits !! S i = Some b
       ∧ timeDifferences (scan threshold commits) !! i = Some (Num d)
       ∧ maxDifference (scan threshold commits)
         = {| difference := Num d; firstCommit := Some a; secondCommit := Some b |}
       ∧ (∀ j e, timeDifferences (scan threshold commits) !! j = Some (Num e) → (e ≤ d)%Z)
       ∧ (∀ j e, (j < i)%nat →
            timeDifferences (scan threshold commits) !! j = Some (Num e) → (e < d)%Z))
  ∧ (∃ i a b d,
       commits !! i = Some a ∧ commits !! S i = Some b
       ∧ timeDifferences (scan threshold commits) !! i = Some (Num d)
       ∧ minDifference (scan threshold commits)
         = {| difference := Num d; firstCommit := Some a; secondCommit := Some b |}
       ∧ (∀ j e, timeDifferences (scan threshold commits) !! j = Some (Num e) → (d ≤ e)%Z)
       ∧ (∀ j e, (j < i)%nat →
            timeDifferences (scan threshold commits) !! j = Some (Num e) → (d < e)%Z)).
Proof.
  intros Hlen Hsafe.
  destruct (first_pair commits Hlen) as (a0 & b0 & Ha0 & Hb0).
  destruct (Hsafe _ _ _ Ha0 Hb0) as (d0 & Hd0 & Hr0).
  assert (H0 : (a0, b0) ∈ adjacentPairs commits).
  { eapply list_elem_of_lookup_2. by apply adjacentPairs_lookup. }
  split; [apply timeDifferences_length |].
  split.
  { intros i a b Ha Hb. destruct (Hsafe _ _ _ Ha Hb) as (d & Hd & _).
    pose proof (timeDifferences_lookup threshold commits i a b Ha Hb) as Hl.
    unfold differenceOf in *. simpl in *.
    destruct (timestamp a) as [|ta], (timestamp b) as [|tb]; try done.
    by exists ta, tb. }
  split.
  - destruct (maxDifference_Selected threshold commits) as [Hall | i a b Hi Hgt Hall Hfirst].
    + specialize (Hall _ H0). rewrite Hd0 in Hall. simpl in Hall. lia.
    + apply adjacentPairs_lookup in Hi as [Ha Hb].
      destruct (Hsafe _ _ _ Ha Hb) as (d & Hd & _).
      exists i, a, b, d. rewrite <- Hd.
      split; [done |]. split; [done |].
      split; [by apply timeDifferences_lookup |]. split; [done |].
      rewrite Hd in *. split.
      * intros j e (p & Hp & He)%timeDifferences_lookup_inv.
        specialize (Hall p (list_elem_of_lookup_2 _ _ _ Hp)).
        rewrite He in Hall. simpl in Hall. lia.
      * intros j e Hj (p & Hp & He)%timeDifferences_lookup_inv.
        destruct (Hfirst j p Hj Hp) as [Hlt | Hnan]; rewrite He in *; [| done].
        simpl in Hlt. lia.
  - destruct (minDifference_Selected threshold commits) as [Hall | i a b Hi Hgt Hall Hfirst].
    + specialize (Hall _ H0). rewrite Hd0 in Hall. simpl in Hall. lia.
    + apply adjacentPairs_lookup in Hi as [Ha Hb].
      destruct (Hsafe _ _ _ Ha Hb) as (d & Hd & _).
      exists i, a, b, d. rewrite <- Hd.
      split; [done |]. split; [done |].
      split; [by apply timeDifferences_lookup |]. split; [done |].
      rewrite Hd in *. split.
      * intros j e (p & Hp & He)%timeDifferences_lookup_inv.
        specialize (Hall p (list_elem_of_lookup_2 _ _ _ Hp)).
        rewrite He in Hall. simpl in Hall. lia.
      * intros j e Hj (p & Hp & He)%timeDifferences_lookup_inv.
        destruct (Hfirst j p Hj Hp) as [Hlt | Hnan]; rewrite He in *; [| done].
        simpl in Hlt. lia.
Qed.

Lemma threeCommits_epochDates : epochDates threeCommits.
Proof.
  intros c Hc. unfold threeCommits in Hc.
  repeat (apply elem_of_cons in Hc as [-> | Hc]); try (eexists; split; [reflexivity | lia]).
  by apply elem_of_nil in Hc.
Qed.

Lemma time_differences_and_extremes_witness :
  ∃ i a b d,
    threeCommits !! i = Some a ∧ threeCommits !! S i = Some b
    ∧ timeDifferences (scan 10 threeCommits) !! i = Some (Num d)
    ∧ maxDifference (scan 10 threeCommits)
      = {| difference := Num d; firstCommit := Some a; secondCommit := Some b |}
    ∧ (∀ j e, timeDifferences (scan 10 threeCommits) !! j = Some (Num e) → (e ≤ d)%Z)
    ∧ (∀ j e, (j < i)%nat →
         timeDifferences (scan 10 threeCommits) !! j = Some (Num e) → (e < d)%Z).
Proof.
  assert (Hlen : (2 ≤ length threeCommits)%nat) by (simpl; lia).
  exact (proj1 (proj2 (proj2 (time_differences_and_extremes 10 threeCommits Hlen
    (epochDates_safeDifferences _ threeCommits_epochDates))))).
Defined.

(** ** The commits of the extremes *)

Lemma Selected_first_second better cur ps r :
  Selected better cur ps r →
  (∃ p, p ∈ ps ∧ better (differenceOf p) (difference cur) = true) →
  ∃ i a b, ps !! i = Some (a, b) ∧ firstCommit r = Some a ∧ secondCommit r = Some b.
Proof.
  intros [Hall | i a b Hi _ _ _] (p & Hp & Hb).
  - by rewrite (Hall p Hp) in Hb.
  - by exists i, a, b.
Qed.

Lemma Selected_start better cur ps r :
  Selected better cur ps r →
  (∀ p, p ∈ ps → better (differenceOf p) (difference cur) = false) →
  r = cur.
Proof.
  intros [Hall | i a b Hi Hb _ _] Hnone; [done |].
  apply list_elem_of_lookup_2 in Hi. by rewrite (Hnone _ Hi) in Hb.
Qed.

(** X25.  When some adjacent difference is a number greater than
    MIN_SAFE_INTEGER and some adjacent difference is a number less than
    MAX_SAFE_INTEGER, both [maxDifference] and [minDifference] hold, after
    the pass, the two commits of an adjacent pair of the sequence, and the
    report reads no null reference. *)
Theorem extremes_hold_commits (threshold : Z) (commits : list Commit) :
  (2 ≤ length commits)%nat →
  (∃ i a b, commits !! i = Some a ∧ commits !! S i = Some b
            ∧ Number.gt (differenceOf (a, b)) (Num Number.MIN_SAFE_INTEGER) = true) →
  (∃ i a b, commits !! i = Some a ∧ commits !! S i = Some b
            ∧ Number.lt (differenceOf (a, b)) (Num Number.MAX_SAFE_INTEGER) = true) →
  (∃ i a b, commits !! i = Some a ∧ commits !! S i = Some b
            ∧ firstCommit (maxDifference (scan threshold commits)) = Some a
            ∧ secondCommit (maxDifference (scan threshold commits)) = Some b)
  ∧ (∃ i a b, commits !! i = Some a ∧ commits !! S i = Some b
            ∧ firstCommit (minDifference (scan threshold commits)) = Some a
            ∧ secondCommit (minDifference (scan threshold commits)) = Some b)
  ∧ extremesNull (scan threshold commits) = false.
Proof.
  intros _ (i & a & b & Ha & Hb & Hgt) (i' & a' & b' & Ha' & Hb' & Hlt).
  destruct (Selected_first_second _ _ _ _ (maxDifference_Selected threshold commits))
    as (k & x & y & Hk & Hx & Hy).
  { exists (a, b). split; [| exact Hgt].
    eapply list_elem_of_lookup_2. by apply adjacentPairs_lookup. }
  destruct (Selected_first_second _ _ _ _ (minDifference_Selected threshold commits))
    as (k' & x' & y' & Hk' & Hx' & Hy').
  { exists (a', b'). split; [| exact Hlt].
    eapply list_elem_of_lookup_2. by apply adjacentPairs_lookup. }
  apply adjacentPairs_lookup in Hk as [? ?]. apply adjacentPairs_lookup in Hk' as [? ?].
  split; [by exists k, x, y |]. split; [by exists k', x', y' |].
  unfold extremesNull. by rewrite Hx, Hy, Hx', Hy'.
Qed.

Lemma extremes_hold_commits_witness :
  extremesNull (scan 10 threeCommits) = false.
Proof.
  refine (proj2 (proj2 (extremes_hold_commits 10 threeCommits _ _ _))).
  - simpl; lia.
  - exists 0%nat. eexists _, _. split; [reflexivity |]. split; reflexivity.
  - exists 0%nat. eexists _, _. split; [reflexivity |]. split; reflexivity.
Defined.

(** Conversely the start value stays when no adjacent difference beats it. *)
Lemma maxDifference_start threshold commits :
  (∀ i a b, commits !! i = Some a → commits !! S i = Some b →
     Number.gt (differenceOf (a, b)) (Num Number.MIN_SAFE_INTEGER) = false) →
  maxDifference (scan threshold commits) = maxDifference initialScan.
Proof.
  intros H. eapply Selected_start; [apply maxDifference_Selected |].
  intros [a b] (i & Hi)%list_elem_of_lookup_1.
  apply adjacentPairs_lookup in Hi as [? ?]. by eapply H.
Qed.

Lemma minDifference_start threshold commits :
  (∀ i a b, commits !! i = Some a → commits !! S i = Some b →
     Number.lt (differenceOf (a, b)) (Num Number.MAX_SAFE_INTEGER) = false) →
  minDifference (scan threshold commits) = minDifference initialScan.
Proof.
  intros H. eapply Selected_start; [apply minDifference_Selected |].
  intros [a b] (i & Hi)%list_elem_of_lookup_1.
  apply adjacentPairs_lookup in Hi as [? ?]. by eapply H.
Qed.

(** Dates that [Date] can read, none before the epoch, always meet the
    condition. *)
Lemma epochDates_extremes threshold commits :
  (2 ≤ length commits)%nat → epochDates commits →
  extremesNull (scan threshold commits) = false.
Proof.
  intros Hlen Hd.
  destruct (first_pair commits Hlen) as (a & b & Ha & Hb).
  destruct (epochDates_safeDifferences _ Hd _ _ _ Ha Hb) as (d & Hdd & Hr).
  destruct (Selected_first_second _ _ _ _ (maxDifference_Selected threshold commits))
    as (k & x & y & _ & Hx & Hy).
  { exists (a, b). split; [eapply list_elem_of_lookup_2; by apply adjacentPairs_lookup |].
    rewrite Hdd. simpl. lia. }
  destruct (Selected_first_second _ _ _ _ (minDifference_Selected threshold commits))
    as (k' & x' & y' & _ & Hx' & Hy').
  { exists (a, b). split; [eapply list_elem_of_lookup_2; by apply adjacentPairs_lookup |].
    rewrite Hdd. simpl. lia. }
  unfold extremesNull. by rewrite Hx, Hy, Hx', Hy'.
Qed.

(** ** Strings: append, search and split *)

Lemma append_cons (x : ascii) (a b : string) : String x a ++ b = String x (a ++ b).
Proof. reflexivity. Qed.

Lemma append_nil_l (a : string) : "" ++ a = a.
Proof. reflexivity. Qed.

Lemma append_assoc (a b c : string) : (a ++ b) ++ c = a ++ (b ++ c).
Proof. induction a as [|x a IH]; [done | by rewrite !append_cons, IH]. Qed.

Lemma append_nil_r (a : string) : a ++ "" = a.
Proof. induction a as [|x a IH]; [done | by rewrite append_cons, IH]. Qed.

Lemma length_append (a b : string) :
  String.length (a ++ b) = (String.length a + String.length b)%nat.
Proof. induction a as [|x a IH]; [done | rewrite append_cons; simpl; by rewrite IH]. Qed.

Lemma startsWith_append (p s : string) : JS.startsWith p (p ++ s) = true.
Proof.
  induction p as [|x p IH]; [done |]. rewrite append_cons. simpl.
  by rewrite Ascii.eqb_refl.
Qed.

(** A match that fits in the first part of a string is a match of it. *)
Lemma startsWith_fits (p u v : string) :
  (String.length p ≤ String.length u)%nat →
  JS.startsWith p (u ++ v) = JS.startsWith p u.
Proof.
  revert u. induction p as [|x p IH]; intros u Hlen; [by destruct u |].
  destruct u as [|y u]; simpl in Hlen; [lia |].
  rewrite append_cons. simpl.
  destruct (Ascii.eqb x y); [| done]. apply IH. lia.
Qed.

Lemma startsWith_append_l (p a b : string) :
  JS.startsWith p a = true → JS.startsWith p (a ++ b) = true.
Proof.
  revert a. induction p as [|x p IH]; intros [|y a]; try done.
  rewrite append_cons. simpl.
  destruct (Ascii.eqb x y); [apply IH | done].
Qed.

Lemma includes_cons (p : string) (c : ascii) (s : string) :
  JS.includes p (String c s) = JS.startsWith p (String c s) || JS.includes p s.
Proof. done. Qed.

Lemma includes_append_l (p a b : string) :
  JS.includes p (a ++ b) = false → JS.includes p a = false.
Proof.
  destruct p as [|x p]; [by destruct (a ++ b) |].
  induction a as [|y a IH]; [done |].
  rewrite append_cons, !includes_cons. intros [Hs Hi]%orb_false_iff.
  rewrite (IH Hi), orb_false_r.
  destruct (JS.startsWith (String x p) (String y a)) eqn:Hp; [| done].
  rewrite <- Hs, <- append_cons. symmetry. by apply startsWith_append_l.
Qed.

Lemma split_from_skip (sep x rest : string) :
  rest ≠ "" →
  JS.split_from sep (String.length x) (x ++ rest) = JS.split_from sep 0 rest.
Proof.
  intros H. induction x as [|c x IH]; [done |].
  rewrite append_cons. simpl. apply IH.
Qed.

Lemma split_from_skip_end (sep x : string) :
  JS.split_from sep (String.length x) x = [""].
Proof. induction x as [|c x IH]; [done | apply IH]. Qed.

(** The piece before the first occurrence of the separator. *)
Lemma split_from_cut (sep u : string) (v : ascii) (b rest : string) :
  sep = u ++ String v "" →
  JS.includes sep (b ++ u) = false →
  JS.split_from sep 0 (b ++ sep ++ rest) = b :: JS.split_from sep 0 rest.
Proof.
  intros Hsep. induction b as [|c b IH]; intros Hfree.
  - rewrite append_nil_l.
    assert (Hne : ∃ x sep', sep = String x sep').
    { rewrite Hsep. destruct u; [rewrite append_nil_l | rewrite append_cons]; eauto. }
    destruct Hne as (x & sep' & Hx).
    rewrite Hx at 2. rewrite append_cons. cbn [JS.split_from].
    rewrite <- append_cons, <- Hx, startsWith_append. f_equal.
    rewrite Hx at 2. cbn [String.length]. rewrite Nat.sub_1_r. cbn [Nat.pred].
    destruct rest as [|r rest].
    + rewrite append_nil_r. apply split_from_skip_end.
    + by apply split_from_skip.
  - rewrite append_cons, includes_cons in Hfree.
    apply orb_false_iff in Hfree as [Hs Hi].
    rewrite append_cons. cbn [JS.split_from].
    assert (Hs' : JS.startsWith sep (String c (b ++ sep ++ rest)) = false).
    { rewrite <- Hs, <- !append_cons.
      rewrite Hsep at 2. rewrite (append_assoc u), <- (append_assoc (String c b) u).
      apply startsWith_fits.
      rewrite Hsep, !length_append. simpl. lia. }
    rewrite Hs', (IH Hi). done.
Qed.

(** A string without the separator is one piece. *)
Lemma split_from_whole (sep b : string) :
  JS.includes sep b = false → JS.split_from sep 0 b = [b].
Proof.
  induction b as [|c b IH]; intros Hfree; [done |].
  rewrite includes_cons in Hfree. apply orb_false_iff in Hfree as [Hs Hi].
  cbn [JS.split_from]. by rewrite Hs, (IH Hi).
Qed.

Lemma trimStart_id (c : ascii) (s : string) :
  JS.isWhiteSpace c = false → JS.trimStart (String c s) = String c s.
Proof. intros H. simpl. by rewrite H. Qed.

Lemma trimEnd_cons (c : ascii) (s : string) :
  JS.trimEnd (String c s) =
  match JS.trimEnd s with
  | EmptyString => if JS.isWhiteSpace c then "" else String c ""
  | t => String c t
  end.
Proof. done. Qed.

(** White space at the end goes. *)
Lemma trimEnd_append_blank (s w : string) :
  JS.trimEnd w = "" → JS.trimEnd (s ++ w) = JS.trimEnd s.
Proof.
  intros Hw. induction s as [|c s IH]; [done |].
  by rewrite append_cons, !trimEnd_cons, IH.
Qed.

(** What precedes a character that stays is kept as it is. *)
Lemma trimEnd_append_kept (x y : string) :
  JS.trimEnd y ≠ "" → JS.trimEnd (x ++ y) = x ++ JS.trimEnd y.
Proof.
  intros Hy. induction x as [|c x IH]; [done |].
  rewrite !append_cons, trimEnd_cons, IH.
  destruct (x ++ JS.trimEnd y) eqn:He; [| done].
  destruct x; [by rewrite append_nil_l in He | by rewrite append_cons in He].
Qed.

(** ** The text of a log *)

Lemma joinLines_cons (l l' : string) (ls : list string) :
  joinLines (l :: l' :: ls) = l ++ JS.nl ++ joinLines (l' :: ls).
Proof. done. Qed.

Lemma split_joinLines (ls : list string) :
  ls ≠ [] →
  (∀ l, l ∈ ls → JS.includes JS.nl l = false) →
  JS.split JS.nl (joinLines ls) = ls.
Proof.
  intros Hne Hfree. induction ls as [|l ls IH]; [done |]. clear Hne.
  destruct ls as [|l' ls].
  - apply split_from_whole, Hfree. left.
  - rewrite joinLines_cons. unfold JS.split.
    rewrite (split_from_cut JS.nl "" JS.newline); [| done |].
    + f_equal. apply IH; [done |]. intros x Hx. apply Hfree. by right.
    + rewrite append_nil_r. apply Hfree. left.
Qed.

Lemma joinLines_snoc (ls : list string) (s : string) :
  ∃ pre, joinLines (ls ++ [s]) = pre ++ s.
Proof.
  induction ls as [|l ls [pre IH]]; [by exists "" |].
  exists (l ++ JS.nl ++ pre).
  destruct ls as [|l' ls]; simpl app in *.
  - rewrite joinLines_cons. simpl in IH. rewrite !append_assoc. by rewrite IH.
  - rewrite joinLines_cons, IH, !append_assoc. done.
Qed.

Lemma trim_blockText (b : Block) :
  WellFormed b → JS.trim (blockText b) = joinLines (blockLines b).
Proof.
  intros [_ (c & s & Hh & Hc) [Hne Hs] _].
  unfold JS.trim, blockText.
  assert (Hstart : ∃ t, joinLines (blockLines b) = String c t).
  { unfold blockLines. simpl app. rewrite joinLines_cons, Hh, append_cons. eauto. }
  destruct Hstart as [t Ht].
  rewrite Ht, append_cons, (trimStart_id c _ Hc), <- append_cons, <- Ht.
  destruct (joinLines_snoc ([blockHash b; blockEmail b; blockSubject b; blockDate b; ""]
                            ++ blockFiles b)%list (blockSummary b)) as [pre Hpre].
  unfold blockLines. rewrite app_assoc, Hpre, append_assoc.
  assert (Hend : JS.trimEnd (blockSummary b ++ JS.nl ++ JS.nl) = blockSummary b).
  { by rewrite trimEnd_append_blank. }
  rewrite trimEnd_append_kept; rewrite Hend; done.
Qed.

Lemma processCommit_block (newDate : string → Date) (b : Block) :
  WellFormed b →
  processCommit newDate (joinLines (blockLines b)) = inr (commitOfBlock newDate b).
Proof.
  intros Hwf. unfold processCommit.
  rewrite split_joinLines; [| by destruct (blockFiles b) | apply (wf_lines b Hwf)].
  unfold blockLines. simpl app.
  by rewrite (app_comm_cons _ _ ""), last_snoc.
Qed.

Lemma split_logText (b : Block) (blocks : list Block) :
  WellFormed b → Forall WellFormed blocks →
  JS.split_from delimiter 0 (blockText b ++ logText blocks) = blockText <$> (b :: blocks).
Proof.
  intros Hb Hbs. revert b Hb. induction Hbs as [|b' blocks Hb' _ IH]; intros b Hb.
  - simpl. rewrite append_nil_r. apply split_from_whole.
    eapply includes_append_l, (wf_delimiter b Hb).
  - cbn [logText].
    rewrite (split_from_cut delimiter ("." ++ JS.nl) "."); [| done | apply (wf_delimiter b Hb)].
    rewrite (IH b' Hb'). done.
Qed.

Lemma commitStrings_logText (blocks : list Block) :
  Forall WellFormed blocks →
  JS.split delimiter (logText blocks) = "" :: (blockText <$> blocks).
Proof.
  intros Hwf. destruct Hwf as [|b rest Hb Hbs]; [done |].
  cbn [logText]. unfold JS.split.
  rewrite <- (append_nil_l (delimiter ++ _)).
  rewrite (split_from_cut delimiter ("." ++ JS.nl) "."); [| done | done].
  by rewrite split_logText.
Qed.

Lemma mapE_fmap {A B C} (f : B → JS.Error + C) (g : A → B) (h : A → C) (l : list A) :
  Forall (λ x, f (g x) = inr (h x)) l → mapE f (g <$> l) = inr (h <$> l).
Proof.
  induction 1 as [|x l Hx _ IH]; [done |].
  simpl. fold (fmap (M := list) g l). by rewrite Hx, IH.
Qed.

(** ** The counts of the summary line *)

Lemma startsWith_inv (p s : string) :
  JS.startsWith p s = true → ∃ suf, s = p ++ suf.
Proof.
  revert s. induction p as [|x p IH]; intros s H; [by exists s |].
  destruct s as [|y s]; [done |]. simpl in H.
  destruct (Ascii.eqb_spec x y) as [-> |]; [| done].
  destruct (IH s H) as [suf ->]. by exists suf.
Qed.





(** [parseInt] reads the digits as a decimal numeral. *)
Lemma parseInt_snoc (ds : string) (c : ascii) :
  JS.parseInt (ds ++ String c "") = (JS.parseInt ds * 10 + JS.digitValue c)%N.
Proof.
  unfold JS.parseInt.
  assert (Happ : list_ascii_of_string (ds ++ String c "")
                 = (list_ascii_of_string ds ++ [c])%list).
  { induction ds as [|x ds IH]; [done |]. rewrite append_cons. simpl. by rewrite IH. }
  by rewrite Happ, fold_left_app.
Qed.


(** ** The parser on blocks *)

Lemma processCommit_fields (newDate : string → Date) (commit h e m t : string)
    (files : list string) (last : string) :
  JS.split JS.nl commit = h :: e :: m :: t :: (files ++ [last])%list →
  processCommit newDate commit
  = inr {| hash := h; author := authorOf e; message := m; timestamp := newDate t;
           changes := countOf "insertion" last + countOf "deletion" last |}.
Proof. intros H. unfold processCommit. by rewrite H, last_snoc. Qed.

Lemma processCommit_short (newDate : string → Date) (commit : string) :
  (length (JS.split JS.nl commit) < 5)%nat →
  processCommit newDate commit = inl JS.TypeError.
Proof.
  unfold processCommit.
  destruct (JS.split JS.nl commit) as [|h [|e [|m [|t [|x stats]]]]]; simpl; try done; lia.
Qed.

(** The parse ends normally exactly when every block has five lines or more. *)
Lemma parseLog_completes (newDate : string → Date) (rawLog : string) :
  (∃ commits, parseLog newDate rawLog = inr commits)
  ↔ Forall (λ commit, (5 ≤ length (JS.split JS.nl commit))%nat) (commitStrings rawLog).
Proof.
  unfold parseLog. induction (commitStrings rawLog) as [|commit l IH]; simpl.
  - split; [constructor | by eexists].
  - destruct (decide (length (JS.split JS.nl commit) < 5)%nat) as [Hs | Hs].
    + rewrite processCommit_short by done. split; [by intros [? ?] |].
      intros H. inversion H. lia.
    + destruct (JS.split JS.nl commit) as [|h [|e [|m [|t stats]]]] eqn:Hl;
        simpl in Hs; try lia.
      destruct stats as [|x stats _] using rev_ind; [simpl in Hs; lia |].
      rewrite (processCommit_fields newDate commit h e m t stats x Hl).
      destruct (mapE (processCommit newDate) l) as [err | commits].
      * split; [by intros [? ?] |]. intros H. inversion H as [|? ? _ Hl'].
        apply IH in Hl' as [? ?]. done.
      * split; [| by eexists]. intros _. constructor; [| apply IH; by eexists].
        rewrite Hl. simpl. rewrite length_app. simpl. lia.
Qed.



(** ** Round trip *)

Lemma wellFormedb_WellFormed (b : Block) : wellFormedb b = true → WellFormed b.
Proof.
  unfold wellFormedb. rewrite !andb_true_iff.
  intros [[[[Hl Hh] Hne] Hs] Hd]. split.
  - intros l Hl'. rewrite forallb_forall in Hl.
    apply negb_true_iff, Hl. by apply list_elem_of_In.
  - destruct (blockHash b) as [|c s]; [done |].
    exists c, s. split; [done |]. by apply negb_true_iff.
  - split; [| by apply String.eqb_eq].
    apply negb_true_iff in Hne. by apply String.eqb_neq.
  - by apply negb_true_iff.
Qed.

(** X26.  A log made of k well-formed blocks, each after a delimiter, splits
    into an empty first piece and the k blocks, and the parser gives exactly
    their k commits in the order of the blocks.  The empty log, and any log
    in which the delimiter does not occur, gives the empty sequence and no
    error. *)
Theorem parseLog_round_trip (newDate : string → Date) :
  (∀ blocks, Forall WellFormed blocks →
     JS.split delimiter (logText blocks) = "" :: (blockText <$> blocks)
     ∧ parseLog newDate (logText blocks) = inr (commitOfBlock newDate <$> blocks)
     ∧ ∃ commits, parseLog newDate (logText blocks) = inr commits
                  ∧ length commits = length blocks
                  ∧ ∀ i b, blocks !! i = Some b →
                      ∃ c, commits !! i = Some c
                           ∧ hash c = blockHash b ∧ message c = blockSubject b)
  ∧ parseLog newDate "" = inr []
  ∧ (∀ rawLog, JS.includes delimiter rawLog = false → parseLog newDate rawLog = inr []).
Proof.
  split; [| split; [done |]].
  - intros blocks Hwf.
    assert (Hparse : parseLog newDate (logText blocks) = inr (commitOfBlock newDate <$> blocks)).
    { unfold parseLog, commitStrings. rewrite (commitStrings_logText blocks Hwf).
      simpl tail. fold (fmap (M := list) JS.trim (blockText <$> blocks)).
      rewrite <- list_fmap_compose.
      apply mapE_fmap. eapply Forall_impl; [exact Hwf |].
      intros b Hb. simpl. rewrite (trim_blockText b Hb). by apply processCommit_block. }
    split; [by apply commitStrings_logText |]. split; [exact Hparse |].
    eexists. split; [exact Hparse |]. split; [by rewrite length_fmap |].
    intros i b Hb. exists (commitOfBlock newDate b).
    by rewrite list_lookup_fmap, Hb.
  - intros rawLog Hfree. unfold parseLog, commitStrings, JS.split.
    by rewrite (split_from_whole _ _ Hfree).
Qed.

Lemma parseLog_round_trip_witness :
  parseLog (λ _, InvalidDate) (logText [exampleBlock1; exampleBlock2])
  = inr [ {| hash := "4f2a9c1e"; author := "dev"; message := "Add the log parser";
             timestamp := InvalidDate; changes := 16 |};
          {| hash := "9d3e5f70"; author := "ops"; message := "";
             timestamp := InvalidDate; changes := 5 |} ].
Proof.
  refine (proj1 (proj2 (proj1 (parseLog_round_trip (λ _, InvalidDate))
            [exampleBlock1; exampleBlock2] _))).
  repeat constructor; apply wellFormedb_WellFormed; reflexivity.
Defined.

(** ** A commit without a diffstat *)

(** C4 fails on the code: the block of the empty commit has four lines,
    [stats.pop()] is [undefined] on it and [changes.match] throws, which ends
    the parse of the whole log; [changes] does not fall back to 0. *)
Theorem empty_commit_aborts_parse (newDate : string → Date) :
  commitStrings logWithEmptyCommit
  = [ joinLines (blockLines exampleBlock1);
      joinLines ["71c0a2b4"; "dev@example.com"; "Trigger the build";
                 "2021-03-02 09:15:00 +0000"];
      joinLines (blockLines exampleBlock2) ]
  ∧ parseLog newDate logWithEmptyCommit = inl JS.TypeError.
Proof. split; reflexivity. Qed.

(** ** The sum of the changes *)

Lemma fold_left_add (l : list N) (a : N) :
  fold_left N.add l a = (a + foldr N.add 0 l)%N.
Proof.
  revert a. induction l as [|x l IH]; intros a; simpl; [lia |]. rewrite IH. lia.
Qed.

Lemma sum_zero (l : list N) :
  foldr N.add 0%N l = 0%N ↔ Forall (λ x, x = 0%N) l.
Proof.
  induction l as [|x l IH]; simpl; [by split |].
  rewrite Forall_cons, <- IH. lia.
Qed.

(** With at least two commits the [reduce] has an element to start from,
    [totalChanges] is the sum of [changes] over all commits, and it is
    non-zero exactly when some commit has non-zero changes. *)
Theorem totalChanges_sum (commits : list Commit) :
  (2 ≤ length commits)%nat →
  ∃ total, totalChanges commits = inr total
    ∧ total = foldr N.add 0%N (map changes commits)
    ∧ (total ≠ 0%N ↔ ∃ c, c ∈ commits ∧ changes c ≠ 0%N).
Proof.
  intros Hlen. exists (foldr N.add 0%N (map changes commits)).
  split; [| split; [done |]].
  - destruct commits as [|c commits]; [simpl in Hlen; lia |].
    unfold totalChanges. cbn [map]. by rewrite fold_left_add.
  - rewrite sum_zero, Forall_map, <- Exists_Forall_neg by (intros; lia).
    rewrite Exists_exists. by setoid_rewrite list_elem_of_In.
Qed.

Lemma totalChanges_sum_witness :
  ∃ total, totalChanges threeCommits = inr total ∧ total = 9%N.
Proof.
  destruct (totalChanges_sum threeCommits) as (total & Ht & Hs & _); [simpl; lia |].
  exists total. split; [exact Ht |]. rewrite Hs. reflexivity.
Defined.

(** ** The median *)

Lemma element_Num (sorted : list Z) (i : Z) :
  element (Num <$> sorted) i = Num <$> position sorted i.
Proof.
  unfold element, position. destruct (i <? 0)%Z; [done |].
  by rewrite list_lookup_fmap.
Qed.

(** The midpoint convention is the one of the specification: where the
    order of the strings is the order of the numbers, the script computes
    the median of the specification. *)
Lemma medianCommitTime_numeric (differences : list Z) :
  sort (Num <$> differences) = Num <$> foldr insertNumeric [] differences →
  medianCommitTime (Num <$> differences) = medianOfSpec differences.
Proof.
  intros Hsort. unfold medianCommitTime, medianOfSpec, midpointOf.
  rewrite Hsort, !element_Num, length_fmap.
  destruct (Z.of_nat (length (foldr insertNumeric [] differences)) mod 2 =? 0)%Z.
  - destruct (position _ _) as [a|], (position _ _) as [b|]; simpl; try done.
  - by destruct (position _ _) as [a|].
Qed.

(** The scenario of three commits at T, T - 1000 ms and T - 5000 ms. *)
Lemma three_commits_scenario :
  timeDifferences (scan 10 threeCommits) = [Num 1000; Num 4000]
  ∧ minDifference (scan 10 threeCommits)
    = {| difference := Num 1000;
         firstCommit := Some (commitAt "c3" (TimeValue 1700000005000));
         secondCommit := Some (commitAt "c2" (TimeValue 1700000004000)) |}
  ∧ maxDifference (scan 10 threeCommits)
    = {| difference := Num 4000;
         firstCommit := Some (commitAt "c2" (TimeValue 1700000004000));
         secondCommit := Some (commitAt "c1" (TimeValue 1700000000000)) |}
  ∧ (∃ q, meanCommitTime (timeDifferences (scan 10 threeCommits)) = inr (Some q)
          ∧ (q == 2500)%Q)
  ∧ (∃ q, medianCommitTime (timeDifferences (scan 10 threeCommits)) = Some q
          ∧ (q == 2500)%Q).
Proof.
  do 3 (split; [reflexivity |]).
  split; eexists; (split; [reflexivity | reflexivity]).
Qed.

(** C1 fails on the code.  The differences 90000, 100000 and 200000 are
    ordered as the strings "100000" < "200000" < "90000", so the script takes
    200000 for the median where the numeric order gives 100000.  On 10, 20,
    30 and 40 the two orders agree and the median is 25. *)
Theorem median_sorts_as_strings :
  timeDifferences (scan 10 fourCommits) = [Num 90000; Num 100000; Num 200000]
  ∧ sort (timeDifferences (scan 10 fourCommits)) = [Num 100000; Num 200000; Num 90000]
  ∧ medianCommitTime (timeDifferences (scan 10 fourCommits)) = Some (inject_Z 200000)
  ∧ medianOfSpec [90000; 100000; 200000]%Z = Some (inject_Z 100000)
  ∧ (∃ q, medianCommitTime [Num 10; Num 20; Num 30; Num 40] = Some q ∧ (q == 25)%Q)
  ∧ (∃ q, medianOfSpec [10; 20; 30; 40]%Z = Some q ∧ (q == 25)%Q).
Proof.
  repeat split; try reflexivity; eexists; (split; [reflexivity | reflexivity]).
Qed.

(** ** The file of the CSV export *)

Lemma endsWith_cons (p : string) (c : ascii) (s : string) :
  JS.endsWith p (String c s) = String.eqb p (String c s) || JS.endsWith p s.
Proof. done. Qed.

Lemma endsWith_append (a p : string) : JS.endsWith p (a ++ p) = true.
Proof.
  induction a as [|c a IH].
  - rewrite append_nil_l. destruct p as [|x p]; [done |].
    by rewrite endsWith_cons, String.eqb_refl.
  - by rewrite append_cons, endsWith_cons, IH, orb_true_r.
Qed.

Lemma endsWith_inv (p s : string) : JS.endsWith p s = true → ∃ a, s = a ++ p.
Proof.
  induction s as [|c s IH].
  - simpl. rewrite orb_false_r. intros ->%String.eqb_eq. by exists "".
  - rewrite endsWith_cons. intros [->%String.eqb_eq | H]%orb_true_iff.
    + by exists "".
    + destruct (IH H) as [a ->]. by exists (String c a).
Qed.

Lemma lastUnit_append (a p : string) : p ≠ "" → lastUnit (a ++ p) = lastUnit p.
Proof.
  intros Hp. induction a as [|c a IH]; [done |].
  rewrite append_cons. simpl. rewrite IH.
  destruct (a ++ p) eqn:He; [| done].
  destruct a; [by rewrite append_nil_l in He | by rewrite append_cons in He].
Qed.

Lemma endsWith_lastUnit (p s : string) :
  p ≠ "" → JS.endsWith p s = true → lastUnit s = lastUnit p.
Proof. intros Hp [a ->]%endsWith_inv. by apply lastUnit_append. Qed.

(** No path ends both with the separator and with ".csv". *)
Lemma sep_or_csv (platform : Path.Platform) (out : string) :
  JS.endsWith ".csv" out = true → JS.endsWith (Path.sep platform) out = false.
Proof.
  intros Hc. apply (endsWith_lastUnit ".csv") in Hc; [| done].
  destruct (JS.endsWith (Path.sep platform) out) eqn:Hs; [| done].
  apply endsWith_lastUnit in Hs; [| by destruct platform].
  rewrite Hc in Hs. by destruct platform.
Qed.

Lemma outFile_cases (platform : Path.Platform) (out : string) :
  JS.endsWith ".csv" (outFile platform out) = true
  ∧ (JS.endsWith (Path.sep platform) out = true → outFile platform out = out ++ "commits.csv")
  ∧ (JS.endsWith (Path.sep platform) out = false → JS.endsWith ".csv" out = false →
       outFile platform out = out ++ ".csv")
  ∧ (JS.endsWith ".csv" out = true → outFile platform out = out).
Proof.
  unfold outFile.
  assert (Hcc : ∀ a, JS.endsWith ".csv" (a ++ "commits.csv") = true).
  { intros a. change "commits.csv" with ("commits" ++ ".csv").
    rewrite <- append_assoc. apply endsWith_append. }
  destruct (JS.endsWith (Path.sep platform) out) eqn:Hs.
  - rewrite Hcc. simpl. repeat split; try done.
    intros Hc. by rewrite (sep_or_csv platform out Hc) in Hs.
  - destruct (JS.endsWith ".csv" out) eqn:Hc; simpl; repeat split; try done.
    apply endsWith_append.
Qed.

(** ** The order of the steps *)

Section ScriptProperties.

Variable platform : Path.Platform.
Variable normalize : string → string.
Variable execSync : string → option string.
Variable writeFileSync : string → string → bool.
Variable newDate : string → Date.
Variable toISOString : Z → string.
Variable render : Argv → list Commit → Scan → N → option Q → option Q → string.
Variable argv : Argv.

Lemma main_log_unavailable :
  execSync (gitLogCommand normalize argv) = None →
  main platform normalize execSync writeFileSync newDate toISOString render argv = ([ExecSync (gitLogCommand normalize argv); ConsoleError "Unable to get commits!"], Exit 1).
Proof. intros H. unfold main, script, getLog. by rewrite H. Qed.

Lemma main_parse_throws rawLog e :
  execSync (gitLogCommand normalize argv) = Some rawLog →
  parseLog newDate rawLog = inl e →
  main platform normalize execSync writeFileSync newDate toISOString render argv = ([ExecSync (gitLogCommand normalize argv)], Uncaught e).
Proof. intros H He. unfold main, script, getLog. by rewrite H; simpl; rewrite He. Qed.

Lemma main_conflicting_options rawLog commits :
  execSync (gitLogCommand normalize argv) = Some rawLog →
  parseLog newDate rawLog = inr commits →
  verbose argv = true → concise argv = true →
  main platform normalize execSync writeFileSync newDate toISOString render argv = ([ExecSync (gitLogCommand normalize argv);
          ConsoleError "I can't be concise and verbose at the same time!"], Exit 1).
Proof.
  intros H Hp Hv Hc. unfold main, script, getLog, checkOptions.
  by rewrite H; simpl; rewrite Hp, Hv, Hc.
Qed.

(** Every file the main platform normalize execSync writeFileSync newDate toISOString render argv writes is the one [outFile] names. *)
Lemma main_writes file data :
  WriteFileSync file data ∈ (main platform normalize execSync writeFileSync newDate toISOString render argv).1 → file = outFile platform (out argv).
Proof.
  unfold main, script, getLog, checkOptions, exportCsv, checkHistory, report.
  destruct (execSync (gitLogCommand normalize argv)) as [rawLog|]; simpl; [| set_solver].
  destruct (parseLog newDate rawLog) as [e|commits]; simpl; [set_solver |].
  destruct (verbose argv && concise argv); simpl; [set_solver |].
  destruct (csv argv); simpl.
  - destruct (csvBuffer toISOString commits) as [e|buffer]; simpl; [set_solver |].
    destruct (writeFileSync _ buffer); simpl; set_solver.
  - destruct (length commits <? 2)%nat; simpl; [set_solver |].
    destruct (totalChanges commits); simpl; [set_solver |].
    destruct (verbose argv && authorDetailsThrow _); simpl; [set_solver |].
    destruct (meanCommitTime _); simpl; [set_solver |].
    destruct (negb (concise argv) && verbose argv && extremesNull _); simpl; set_solver.
Qed.

End ScriptProperties.

(** C8, amended.  With both modes requested the log is retrieved and parsed
    first.  When the retrieval fails the run ends with the message of the
    unavailable log; when retrieval and parsing succeed it ends with the
    message of the conflicting options and exit code 1, before the CSV export,
    the check of the history length and the statistics: nothing is written and
    nothing is reported. *)
Theorem options_checked_after_parsing
    (platform : Path.Platform) (normalize : string → string)
    (execSync : string → option string) (writeFileSync : string → string → bool)
    (newDate : string → Date) (toISOString : Z → string)
    (render : Argv → list Commit → Scan → N → option Q → option Q → string)
    (argv : Argv) :
  verbose argv = true → concise argv = true →
  (execSync (gitLogCommand normalize argv) = None →
     main platform normalize execSync writeFileSync newDate toISOString render argv
     = ([ExecSync (gitLogCommand normalize argv); ConsoleError "Unable to get commits!"],
        Exit 1))
  ∧ (∀ rawLog commits,
       execSync (gitLogCommand normalize argv) = Some rawLog →
       parseLog newDate rawLog = inr commits →
       main platform normalize execSync writeFileSync newDate toISOString render argv
       = ([ExecSync (gitLogCommand normalize argv);
           ConsoleError "I can't be concise and verbose at the same time!"],
          Exit 1)).
Proof.
  intros Hv Hc. split.
  - apply main_log_unavailable.
  - intros rawLog commits H Hp. by eapply main_conflicting_options.
Qed.

Lemma options_checked_after_parsing_witness :
  main Path.posix id twoCommitRepository (λ _ _, true) (λ _, InvalidDate) (λ _, "")
       plainReport bothModes
  = ([ExecSync (gitLogCommand id bothModes);
      ConsoleError "I can't be concise and verbose at the same time!"],
     Exit 1).
Proof.
  refine (proj2 (options_checked_after_parsing Path.posix id twoCommitRepository
            (λ _ _, true) (λ _, InvalidDate) (λ _, "") plainReport bothModes
            eq_refl eq_refl) _ _ eq_refl _).
  reflexivity.
Defined.

(** C8 as stated fails: with both modes requested and no repository, the
    log command is run first and the run ends with the message of the
    unavailable log, not with the one of the conflicting options; with a
    repository, the log command still runs before the conflict is reported. *)
Lemma log_retrieved_before_options_check :
  verbose bothModes = true ∧ concise bothModes = true
  ∧ main Path.posix id noRepository (λ _ _, true) (λ _, InvalidDate) (λ _, "")
         plainReport bothModes
    = ([ExecSync (gitLogCommand id bothModes); ConsoleError "Unable to get commits!"],
       Exit 1)
  ∧ main Path.posix id (λ _, Some logWithEmptyCommit) (λ _ _, true) (λ _, InvalidDate)
         (λ _, "") plainReport bothModes
    = ([ExecSync (gitLogCommand id bothModes)], Uncaught JS.TypeError).
Proof. repeat split; reflexivity. Qed.

(** C10.  The file of the CSV export always ends in ".csv": a path that
    ends with the separator of the platform gets "commits.csv" appended;
    otherwise a path that does not end in ".csv" gets ".csv" appended; a path
    that ends in ".csv" is used as it is.  Every file a run writes is that
    file. *)
Theorem csv_file_ends_in_csv (platform : Path.Platform) (path : string) :
  JS.endsWith ".csv" (outFile platform path) = true
  ∧ (JS.endsWith (Path.sep platform) path = true →
       outFile platform path = path ++ "commits.csv")
  ∧ (JS.endsWith (Path.sep platform) path = false → JS.endsWith ".csv" path = false →
       outFile platform path = path ++ ".csv")
  ∧ (JS.endsWith ".csv" path = true → outFile platform path = path)
  ∧ (∀ normalize execSync writeFileSync newDate toISOString render argv file data,
       out argv = path →
       WriteFileSync file data
         ∈ (main platform normalize execSync writeFileSync newDate toISOString render argv).1 →
       file = outFile platform path ∧ JS.endsWith ".csv" file = true).
Proof.
  destruct (outFile_cases platform path) as (H1 & H2 & H3 & H4).
  do 4 (split; [done |]).
  intros normalize execSync writeFileSync newDate toISOString render argv file data <- Hw.
  apply main_writes in Hw as ->. split; [done | apply outFile_cases].
Qed.

Lemma csv_file_ends_in_csv_witness :
  outFile Path.posix "export/" = "export/commits.csv"
  ∧ outFile Path.win32 "history" = "history.csv"
  ∧ outFile Path.posix "commits.csv" = "commits.csv".
Proof.
  split; [| split].
  - exact (proj1 (proj2 (csv_file_ends_in_csv Path.posix "export/")) eq_refl).
  - exact (proj1 (proj2 (proj2 (csv_file_ends_in_csv Path.win32 "history"))) eq_refl eq_refl).
  - exact (proj1 (proj2 (proj2 (proj2 (csv_file_ends_in_csv Path.posix "commits.csv")))) eq_refl).
Defined.

(** A whole run of the export, and a whole run of the report. *)
Lemma main_export_example :
  main Path.posix id twoCommitRepository (λ _ _, true) (λ _, TimeValue 0)
       (λ _, "1970-01-01T00:00:00.000Z") plainReport (exportTo "export/")
  = ([ExecSync (gitLogCommand id (exportTo "export/"));
      WriteFileSync "export/commits.csv"
        ("hash,timestamp,author,changes,message" ++ JS.nl
         ++ "4f2a9c1e,1970-01-01T00:00:00.000Z,dev,16,Add the log parser" ++ JS.nl
         ++ "9d3e5f70,1970-01-01T00:00:00.000Z,ops,5,");
      ConsoleLog "Commit history saved to 'export/commits.csv'."],
     Exit 0).
Proof. reflexivity. Qed.

(** * Further properties of the script *)

(** ** The time spans of the report *)

(** X13.  The counts of a time span are those of a mixed-radix numeral: days,
    hours, minutes and seconds stay within their units whatever the sign of
    the span, the counts add up to the span less a rest under a second, and
    the count of years carries the sign. *)
Theorem timeSpanOf_decomposition (time : Z) :
  (0 ≤ days (timeSpanOf time) < 365)%Z
  ∧ (0 ≤ hours (timeSpanOf time) < 24)%Z
  ∧ (0 ≤ minutes (timeSpanOf time) < 60)%Z
  ∧ (0 ≤ seconds (timeSpanOf time) < 60)%Z
  ∧ (0 ≤ time - (years (timeSpanOf time) * 31536000000
                 + days (timeSpanOf time) * 86400000
                 + hours (timeSpanOf time) * 3600000
                 + minutes (timeSpanOf time) * 60000
                 + seconds (timeSpanOf time) * 1000) < 1000)%Z
  ∧ (0 ≤ years (timeSpanOf time) ↔ 0 ≤ time)%Z.
Proof.
  unfold timeSpanOf. cbn [years days hours minutes seconds].
  repeat split; Z.to_euclidean_division_equations; lia.
Qed.

Lemma Z_toString_first (z : Z) :
  ∃ c r, JS.Z_toString z = String c r ∧ c ≠ "u"%char.
Proof.
  unfold JS.Z_toString, NilZero.string_of_int, NilZero.string_of_uint.
  destruct (Z.to_int z) as [d | d]; destruct d; simpl; eexists _, _; split; done.
Qed.

Lemma spanPart_first (value : Z) (unit text : string) :
  spanPart value unit = Some text → ∃ c r, text = String c r ∧ c ≠ "u"%char.
Proof.
  unfold spanPart. destruct (value =? 0)%Z; [done |]. intros [= <-].
  destruct (Z_toString_first value) as (c & r & -> & Hc).
  exists c. eexists. by rewrite append_cons.
Qed.

Lemma concat_first (c : ascii) (r : string) (rest : list string) :
  ∃ r', String.concat ", " (String c r :: rest) = String c r'.
Proof.
  destruct rest as [|x rest]; [by exists r |].
  eexists. cbn [String.concat]. by rewrite append_cons.
Qed.

(** Some part is printed unless every count is 0. *)
Lemma parts_under_a_second (parts : list (option string)) :
  (∀ text, Some text ∈ parts → ∃ c r, text = String c r ∧ c ≠ "u"%char) →
  match String.concat ", " (omap id parts) with
  | EmptyString => "under a second"
  | text => text
  end = "under a second" →
  Forall (λ p, p = None) parts.
Proof.
  induction parts as [|p parts IH]; intros Hfirst Hout; [constructor |].
  destruct p as [text|].
  - exfalso. destruct (Hfirst text) as (c & r & -> & Hc); [left |].
    change (omap id (Some (String c r) :: parts))
      with (String c r :: omap id parts) in Hout.
    destruct (concat_first c r (omap id parts)) as [r' Hr'].
    rewrite Hr' in Hout. by injection Hout as -> _.
  - change (omap id (None :: parts)) with (omap id parts) in Hout.
    constructor; [done |]. apply IH; [| exact Hout].
    intros text Ht. apply Hfirst. by right.
Qed.

(** X14.  The report says "under a second" exactly for the spans from 0 to 999
    milliseconds, and for [NaN]. *)
Theorem prettyPrintTimeSpan_under_a_second (time : Z) :
  (prettyPrintTimeSpan (Num time) = "under a second" ↔ (0 ≤ time < 1000)%Z)
  ∧ prettyPrintTimeSpan NaN = "under a second".
Proof.
  split; [| done]. split.
  - intros Hout. unfold prettyPrintTimeSpan in Hout.
    apply parts_under_a_second in Hout.
    + assert (Hz : ∀ v u, spanPart v u = None → v = 0%Z).
      { intros v u. unfold spanPart. destruct (Z.eqb_spec v 0); [done | done]. }
      inversion Hout as [|? ? Hy Hout1]; subst.
      inversion Hout1 as [|? ? Hd Hout2]; subst.
      inversion Hout2 as [|? ? Hh Hout3]; subst.
      inversion Hout3 as [|? ? Hm Hout4]; subst.
      inversion Hout4 as [|? ? Hs _]; subst.
      apply Hz in Hy, Hd, Hh, Hm, Hs. clear Hz Hout Hout1 Hout2 Hout3 Hout4.
      unfold timeSpanOf in *. cbn [years days hours minutes seconds] in *.
      Z.to_euclidean_division_equations. lia.
    + intros text Ht.
      repeat (apply elem_of_cons in Ht as [Ht | Ht];
              [symmetry in Ht; by eapply spanPart_first |]).
      by apply elem_of_nil in Ht.
  - intros Hsmall. unfold prettyPrintTimeSpan, timeSpanOf.
    cbn [years days hours minutes seconds].
    assert (Hy : (time / 31536000000 = 0)%Z) by (apply Z.div_small; lia).
    rewrite Hy. cbn [Z.mul]. rewrite Z.sub_0_r.
    assert (Hd : (time / 86400000 = 0)%Z) by (apply Z.div_small; lia).
    rewrite Hd. cbn [Z.mul]. rewrite Z.sub_0_r.
    assert (Hh : (time / 3600000 = 0)%Z) by (apply Z.div_small; lia).
    rewrite Hh. cbn [Z.mul]. rewrite Z.sub_0_r.
    assert (Hm : (time / 60000 = 0)%Z) by (apply Z.div_small; lia).
    rewrite Hm. cbn [Z.mul]. rewrite Z.sub_0_r.
    assert (Hs : (time / 1000 = 0)%Z) by (apply Z.div_small; lia).
    rewrite Hs. reflexivity.
Qed.

(** X15.  A negative span, that of a commit older than the one that follows it
    in the log, is printed with a negative count of years, in the plural. *)
Theorem prettyPrintTimeSpan_negative (time : Z) :
  (time < 0)%Z →
  ∃ rest,
    prettyPrintTimeSpan (Num time)
    = JS.Z_toString (years (timeSpanOf time)) ++ " years" ++ rest
    ∧ (years (timeSpanOf time) < 0)%Z
    ∧ ∃ digits, JS.Z_toString (years (timeSpanOf time)) = String "-" digits.
Proof.
  intros Hneg.
  assert (Hy : (years (timeSpanOf time) < 0)%Z).
  { unfold timeSpanOf. cbn [years]. Z.to_euclidean_division_equations. lia. }
  unfold prettyPrintTimeSpan.
  set (y := years (timeSpanOf time)) in *.
  assert (Hpart : spanPart y "year" = Some (JS.Z_toString y ++ " years")).
  { unfold spanPart, pluralize.
    destruct (Z.eqb_spec y 0); [lia |]. destruct (Z.eqb_spec y 1); [lia |]. done. }
  rewrite Hpart.
  match goal with
  | |- context [omap id (Some ?p :: ?l)] =>
      change (omap id (Some p :: l)) with (p :: omap id l); set (others := omap id l)
  end.
  assert (Hminus : ∃ digits, JS.Z_toString y = String "-" digits).
  { unfold JS.Z_toString. destruct y as [|p|p]; try lia. simpl. eauto. }
  destruct Hminus as [digits Hdigits].
  assert (Htext : ∃ rest, String.concat ", " ((JS.Z_toString y ++ " years") :: others)
                          = JS.Z_toString y ++ " years" ++ rest).
  { destruct others as [|x others'].
    - exists "". cbn [String.concat]. by rewrite append_nil_r.
    - eexists. cbn [String.concat]. by rewrite append_assoc. }
  destruct Htext as [rest Hrest]. exists rest. rewrite Hrest.
  split; [| split; [done | by exists digits]].
  by rewrite Hdigits, append_cons.
Qed.

Lemma prettyPrintTimeSpan_negative_witness :
  ∃ rest, prettyPrintTimeSpan (Num (-1000)) = "-1 years" ++ rest.
Proof.
  destruct (prettyPrintTimeSpan_negative (-1000)) as (rest & Hr & _); [lia |].
  exists rest. exact Hr.
Defined.

(** Spans as the report prints them. *)
Lemma prettyPrintTimeSpan_examples :
  prettyPrintTimeSpan (Num 1000) = "1 second"
  ∧ prettyPrintTimeSpan (Num 4000) = "4 seconds"
  ∧ prettyPrintTimeSpan (Num 90061000) = "1 day, 1 hour, 1 minute, 1 second"
  ∧ prettyPrintTimeSpan (Num 31536000000) = "1 year"
  ∧ prettyPrintTimeSpan (Num (-1000))
    = "-1 years, 364 days, 23 hours, 59 minutes, 59 seconds".
Proof. repeat split; reflexivity. Qed.

(** ** The author map *)

Lemma updateAuthors_lookup (m : gmap string AuthorInfo.t) (c : Commit) (a : string) :
  updateAuthors m c !! a
  = if decide (author c = a) then tally (m !! a) [c] else m !! a.
Proof.
  unfold updateAuthors. case_decide as Ha.
  - subst a. destruct (m !! author c); by rewrite lookup_insert_eq.
  - destruct (m !! author c); by rewrite lookup_insert_ne.
Qed.

Lemma foldl_updateAuthors_lookup (commits : list Commit) (m : gmap string AuthorInfo.t)
    (a : string) :
  foldl updateAuthors m commits !! a = tally (m !! a) (commitsBy a commits).
Proof.
  revert m. induction commits as [|c commits IH]; intros m; [done |].
  cbn [foldl]. rewrite IH, updateAuthors_lookup. unfold commitsBy.
  rewrite filter_cons. by case_decide.
Qed.

Lemma tally_Some (info : AuthorInfo.t) (commits : list Commit) :
  tally (Some info) commits
  = Some {| AuthorInfo.commitCount :=
              AuthorInfo.commitCount info + N.of_nat (length commits);
            AuthorInfo.changes := AuthorInfo.changes info + sumChanges commits |}.
Proof.
  revert info. induction commits as [|c commits IH]; intros info.
  - destruct info. unfold sumChanges. simpl. f_equal. f_equal; lia.
  - unfold tally in *. cbn [foldl]. rewrite IH. unfold sumChanges.
    cbn [AuthorInfo.commitCount AuthorInfo.changes map foldr length].
    f_equal. f_equal; lia.
Qed.

Lemma scan_authors_lookup (threshold : Z) (commits : list Commit) (a : string) :
  authors (scan threshold commits) !! a
  = match commitsBy a commits with
    | [] => None
    | theirs =>
        Some {| AuthorInfo.commitCount := N.of_nat (length theirs);
                AuthorInfo.changes := sumChanges theirs |}
    end.
Proof.
  rewrite scan_folds. cbn [authors].
  rewrite foldl_updateAuthors_lookup, lookup_empty.
  destruct (commitsBy a commits) as [|c theirs]; [done |].
  unfold tally. cbn [foldl]. fold (tally (Some {| AuthorInfo.commitCount := 1;
    AuthorInfo.changes := changes c |}) theirs).
  rewrite tally_Some. unfold sumChanges.
  cbn [AuthorInfo.commitCount AuthorInfo.changes map foldr length].
  f_equal. f_equal; lia.
Qed.

Lemma commitsBy_nil (a : string) (commits : list Commit) :
  commitsBy a commits = [] ↔ a ∉ author <$> commits.
Proof.
  unfold commitsBy. rewrite list_elem_of_fmap. split.
  - intros Hnil (c & -> & Hc).
    assert (c ∈ filter (λ c', author c' = author c) commits)
      by (by apply list_elem_of_filter).
    rewrite Hnil in H. by apply elem_of_nil in H.
  - intros Hnot. apply elem_of_nil_inv. intros c [Ha Hc]%list_elem_of_filter.
    apply Hnot. by exists c.
Qed.

Lemma scan_authors_is_Some (threshold : Z) (commits : list Commit) (a : string) :
  is_Some (authors (scan threshold commits) !! a) ↔ a ∈ author <$> commits.
Proof.
  rewrite scan_authors_lookup.
  destruct (commitsBy a commits) as [|c theirs] eqn:Hby.
  - apply commitsBy_nil in Hby. split; [by intros [? ?] | done].
  - split; [| by eauto]. intros _.
    destruct (decide (a ∈ author <$> commits)) as [|Hn]; [done |].
    apply commitsBy_nil in Hn. by rewrite Hn in Hby.
Qed.

(** X4.  After the pass an author has an entry exactly when some commit is
    theirs; the entry counts their commits, at least one, and holds the sum
    of the changes of these commits. *)
Theorem authors_rollup (threshold : Z) (commits : list Commit) (a : string) :
  (is_Some (authors (scan threshold commits) !! a) ↔ ∃ c, c ∈ commits ∧ author c = a)
  ∧ ∀ info, authors (scan threshold commits) !! a = Some info →
      AuthorInfo.commitCount info = N.of_nat (length (commitsBy a commits))
      ∧ AuthorInfo.changes info = sumChanges (commitsBy a commits)
      ∧ (1 ≤ AuthorInfo.commitCount info)%N.
Proof.
  split.
  - rewrite scan_authors_is_Some, list_elem_of_fmap. naive_solver.
  - intros info. rewrite scan_authors_lookup.
    destruct (commitsBy a commits) as [|c theirs]; [done |].
    intros [= <-]. cbn [AuthorInfo.commitCount AuthorInfo.changes length].
    repeat split. lia.
Qed.

(** X5.  The number of authors of the report is the number of distinct author
    names among the commits. *)
Theorem authorCount_distinct (threshold : Z) (commits : list Commit) :
  size (authors (scan threshold commits)) = length (remove_dups (author <$> commits))
  ∧ (commits ≠ [] → (1 ≤ size (authors (scan threshold commits)))%nat).
Proof.
  assert (Hsize : size (authors (scan threshold commits))
                  = length (remove_dups (author <$> commits))).
  { rewrite <- size_dom.
    rewrite <- (size_list_to_set (C := gset string) (remove_dups (author <$> commits)))
      by apply NoDup_remove_dups.
    f_equal. apply set_eq. intros a.
    by rewrite elem_of_dom, scan_authors_is_Some, elem_of_list_to_set, elem_of_remove_dups. }
  split; [done |]. intros Hne. rewrite Hsize.
  destruct commits as [|c commits]; [done |].
  assert (Hin : author c ∈ remove_dups (author <$> c :: commits)).
  { apply elem_of_remove_dups. left. }
  destruct (remove_dups (author <$> c :: commits)); [by apply elem_of_nil in Hin |].
  simpl. lia.
Qed.

Lemma sumOver_insert (f : AuthorInfo.t → N) (m : gmap string AuthorInfo.t) (a : string)
    (info : AuthorInfo.t) :
  sumOver f (<[a := info]> m)
  = (f info + sumOver f m - match m !! a with Some old => f old | None => 0 end)%N.
Proof.
  unfold sumOver. destruct (m !! a) as [old|] eqn:Hold.
  - rewrite <- insert_delete_eq.
    rewrite map_fold_insert_L; [| intros; lia | by rewrite lookup_delete_eq].
    rewrite (map_fold_delete_L _ _ a old m); [| intros; lia | done]. lia.
  - rewrite map_fold_insert_L; [| intros; lia | done]. lia.
Qed.

Lemma sumOver_updateAuthors (m : gmap string AuthorInfo.t) (c : Commit) :
  sumOver AuthorInfo.commitCount (updateAuthors m c)
  = (sumOver AuthorInfo.commitCount m + 1)%N
  ∧ sumOver AuthorInfo.changes (updateAuthors m c)
    = (sumOver AuthorInfo.changes m + changes c)%N.
Proof.
  unfold updateAuthors. destruct (m !! author c) as [old|] eqn:Hold.
  - rewrite !sumOver_insert, Hold. cbn [AuthorInfo.commitCount AuthorInfo.changes].
    assert (AuthorInfo.commitCount old ≤ sumOver AuthorInfo.commitCount m
            ∧ AuthorInfo.changes old ≤ sumOver AuthorInfo.changes m)%N as [? ?].
    { unfold sumOver. split.
      - rewrite (map_fold_delete_L _ _ (author c) old m); [lia | intros; lia | done].
      - rewrite (map_fold_delete_L _ _ (author c) old m); [lia | intros; lia | done]. }
    lia.
  - rewrite !sumOver_insert, Hold. cbn [AuthorInfo.commitCount AuthorInfo.changes]. lia.
Qed.

(** X6.  Every commit is counted for one author and no more: over the authors,
    the commit counts add up to the number of commits and the changes add up
    to the total of the changes, the divisor of the shares. *)
Theorem authors_partition (threshold : Z) (commits : list Commit) :
  sumOver AuthorInfo.commitCount (authors (scan threshold commits))
  = N.of_nat (length commits)
  ∧ sumOver AuthorInfo.changes (authors (scan threshold commits)) = sumChanges commits
  ∧ (commits ≠ [] → totalChanges commits = inr (sumChanges commits)).
Proof.
  rewrite scan_folds. cbn [authors].
  assert (Hgen : ∀ l m,
    sumOver AuthorInfo.commitCount (foldl updateAuthors m l)
    = (sumOver AuthorInfo.commitCount m + N.of_nat (length l))%N
    ∧ sumOver AuthorInfo.changes (foldl updateAuthors m l)
      = (sumOver AuthorInfo.changes m + sumChanges l)%N).
  { induction l as [|c l IH]; intros m.
    - unfold sumChanges. simpl. split; lia.
    - cbn [foldl]. destruct (IH (updateAuthors m c)) as [-> ->].
      destruct (sumOver_updateAuthors m c) as [-> ->].
      unfold sumChanges. cbn [map foldr length]. split; lia. }
  destruct (Hgen commits ∅) as [-> ->].
  unfold sumOver. rewrite !map_fold_empty.
  split; [lia |]. split; [lia |].
  destruct commits as [|c commits]; [done |]. intros _.
  unfold totalChanges, sumChanges. cbn [map foldr]. by rewrite fold_left_add.
Qed.

(** ** The counts behind the percentages *)

Lemma remove_dups_length {A} `{EqDecision A} (l : list A) :
  (length (remove_dups l) ≤ length l)%nat.
Proof.
  induction l as [|x l IH]; [done |]. simpl. case_decide; simpl; lia.
Qed.

Lemma remove_dups_full {A} `{EqDecision A} (l : list A) :
  length (remove_dups l) = length l ↔ NoDup l.
Proof.
  induction l as [|x l IH]; [split; [constructor | done] |].
  simpl. pose proof (remove_dups_length l). rewrite NoDup_cons.
  case_decide as Hx; simpl; [split; [lia | by intros [? _]] |].
  rewrite <- IH. split; [intros; split; [done | lia] | intros [_ ?]; lia].
Qed.

(** X7.  The two counts the report turns into percentages of the number of
    commits never exceed that number; some message is unique as soon as there
    is a commit, and all are, the 100% of the report, exactly when no two
    commits have the same message. *)
Theorem message_counts_bounded (threshold : Z) (commits : list Commit) :
  (meaningfulMessages (scan threshold commits) ≤ N.of_nat (length commits))%N
  ∧ (size (uniqueMessages (scan threshold commits)) ≤ length commits)%nat
  ∧ (commits ≠ [] → (1 ≤ size (uniqueMessages (scan threshold commits)))%nat)
  ∧ (size (uniqueMessages (scan threshold commits)) = length commits
     ↔ NoDup (message <$> commits)).
Proof.
  rewrite scan_folds. cbn [meaningfulMessages uniqueMessages].
  assert (Hsize : size (list_to_set (C := gset string) (message <$> commits))
                  = length (remove_dups (message <$> commits))).
  { rewrite <- (size_list_to_set (C := gset string) (remove_dups (message <$> commits)))
      by apply NoDup_remove_dups.
    f_equal. apply set_eq. intros m.
    by rewrite !elem_of_list_to_set, elem_of_remove_dups. }
  split; [| split; [| split]].
  - pose proof (length_filter (isMeaningful threshold) commits). lia.
  - rewrite Hsize. pose proof (remove_dups_length (message <$> commits)) as H.
    by rewrite length_fmap in H.
  - intros Hne. rewrite Hsize. destruct commits as [|c commits]; [done |].
    assert (Hin : message c ∈ remove_dups (message <$> c :: commits)).
    { apply elem_of_remove_dups. left. }
    destruct (remove_dups (message <$> c :: commits)); [by apply elem_of_nil in Hin |].
    simpl. lia.
  - rewrite Hsize, <- remove_dups_full. by rewrite length_fmap.
Qed.

(** ** The order of [sort()] *)

Lemma ltb_leb (s1 s2 : string) : String.ltb s1 s2 = true → String.leb s1 s2 = true.
Proof. unfold String.ltb, String.leb. by destruct (String.compare s1 s2). Qed.

Lemma not_ltb_leb (s1 s2 : string) : String.ltb s1 s2 = false → String.leb s2 s1 = true.
Proof.
  unfold String.ltb, String.leb. rewrite (String.compare_antisym s1 s2).
  by destruct (String.compare s2 s1).
Qed.

Lemma leb_trans (s1 s2 s3 : string) :
  String.leb s1 s2 = true → String.leb s2 s3 = true → String.leb s1 s3 = true.
Proof.
  intros H1%Is_true_true H2%Is_true_true. apply Is_true_true.
  change (String.le s1 s3). by trans s2.
Qed.

Lemma sortInsert_Permutation (x : number) (l : list number) : sortInsert x l ≡ₚ x :: l.
Proof.
  induction l as [|y l IH]; [done |]. simpl.
  destruct (String.ltb _ _); [| done]. rewrite IH. apply Permutation_swap.
Qed.

Lemma sortInsert_StronglySorted (x : number) (l : list number) :
  StronglySorted byString l → StronglySorted byString (sortInsert x l).
Proof.
  induction 1 as [|y l Hl IH Hy]; simpl; [repeat constructor |].
  destruct (String.ltb (Number.toString y) (Number.toString x)) eqn:Hlt.
  - constructor; [done |].
    rewrite sortInsert_Permutation. constructor; [by apply ltb_leb | done].
  - apply not_ltb_leb in Hlt. constructor; [by constructor |].
    constructor; [done |]. eapply Forall_impl; [exact Hy |].
    intros z Hz. by eapply leb_trans.
Qed.

(** X9.  [sort()] keeps the differences, each as often as it occurs, and leaves
    them in the order of their decimal strings: every element is before the
    elements whose string is not smaller. *)
Theorem sort_by_string (l : list number) :
  sort l ≡ₚ l ∧ StronglySorted byString (sort l).
Proof.
  unfold sort. induction l as [|x l [IHp IHs]]; [split; [done | constructor] |].
  cbn [foldr]. split.
  - by rewrite sortInsert_Permutation, IHp.
  - by apply sortInsert_StronglySorted.
Qed.

(** ** The median and the mean *)

(** X10.  With one or two differences, the histories of two or three commits,
    the order of the strings cannot matter: the median is the one of the
    numeric order. *)
Theorem medianCommitTime_small (differences : list Z) :
  (length differences ≤ 2)%nat →
  medianCommitTime (Num <$> differences) = medianOfSpec differences.
Proof.
  intros Hlen. destruct differences as [|a [|b [|c l]]]; [done | done | | simpl in Hlen; lia].
  unfold medianCommitTime, medianOfSpec, sort.
  cbn [fmap list_fmap foldr sortInsert insertNumeric].
  destruct (String.ltb (Number.toString (Num b)) (Number.toString (Num a)));
    destruct (b <? a)%Z;
    unfold midpointOf, element, position; cbn [length];
    change (Z.of_nat 2 mod 2 =? 0)%Z with true;
    change ((Z.of_nat 2 + 1) / 2)%Z with 1%Z;
    change (1 - 1)%Z with 0%Z; change (1 <? 0)%Z with false;
    change (0 <? 0)%Z with false;
    change (Z.to_nat 1) with 1%nat; change (Z.to_nat 0) with 0%nat;
    cbn [lookup list_lookup Number.ofElement Number.add Number.div];
    try done; by rewrite Z.add_comm.
Qed.

Lemma medianCommitTime_small_witness :
  medianCommitTime (Num <$> [9; 10]%Z) = medianOfSpec [9; 10]%Z.
Proof. apply medianCommitTime_small. simpl. lia. Defined.







(** ** The author of a commit *)

Lemma startsWith_cons (a b : ascii) (p s : string) :
  JS.startsWith (String a p) (String b s)
  = if Ascii.eqb a b then JS.startsWith p s else false.
Proof. done. Qed.

Lemma startsWith_nil (s : string) : JS.startsWith "" s = true.
Proof. by destruct s. Qed.

Lemma includes_first (c : ascii) (s : string) :
  JS.includes (String c "") s = true →
  ∃ a b, s = a ++ String c "" ++ b ∧ JS.includes (String c "") a = false.
Proof.
  induction s as [|x s IH]; [done |].
  rewrite includes_cons, startsWith_cons, startsWith_nil.
  destruct (Ascii.eqb_spec c x) as [<- | Hne].
  - intros _. by exists "", s.
  - rewrite orb_false_l. intros (a & b & -> & Ha)%IH.
    exists (String x a), b. split; [done |].
    rewrite includes_cons, startsWith_cons, startsWith_nil.
    destruct (Ascii.eqb_spec c x); [done |]. by rewrite Ha.
Qed.

Lemma authorOf_cut (name rest : string) :
  JS.includes "@" name = false → authorOf (name ++ "@" ++ rest) = name.
Proof.
  intros Hname. unfold authorOf, JS.split.
  rewrite (split_from_cut "@" "" "@"); [done | done |]. by rewrite append_nil_r.
Qed.

(** X2.  The author is the email up to its first [@], the whole email when it
    has none, and so never contains an [@]. *)
Theorem authorOf_local_part (email : string) :
  (JS.includes "@" email = false → authorOf email = email)
  ∧ (∀ name rest, JS.includes "@" name = false → email = name ++ "@" ++ rest →
       authorOf email = name)
  ∧ JS.includes "@" (authorOf email) = false.
Proof.
  assert (Hwhole : JS.includes "@" email = false → authorOf email = email).
  { intros H. unfold authorOf, JS.split. by rewrite (split_from_whole _ _ H). }
  split; [done |]. split.
  - intros name rest Hname ->. by apply authorOf_cut.
  - destruct (JS.includes "@" email) eqn:He.
    + apply includes_first in He as (a & b & -> & Ha). by rewrite authorOf_cut.
    + by rewrite Hwhole.
Qed.

(** ** The outcome of the parse *)

(** X3.  The parse either turns every block into a commit, one for one and in
    order, or ends in a [TypeError]; it ends so exactly when some block has
    fewer than five lines, and it never skips a block. *)
Theorem parseLog_outcome (newDate : string → Date) (rawLog : string) :
  (∃ commits, parseLog newDate rawLog = inr commits
     ∧ length commits = length (commitStrings rawLog)
     ∧ Forall (λ commit, (5 ≤ length (JS.split JS.nl commit))%nat) (commitStrings rawLog))
  ∨ (parseLog newDate rawLog = inl JS.TypeError
     ∧ Exists (λ commit, (length (JS.split JS.nl commit) < 5)%nat) (commitStrings rawLog)).
Proof.
  unfold parseLog. induction (commitStrings rawLog) as [|commit l IH].
  - left. exists []. by repeat split.
  - cbn [mapE].
    destruct (decide (length (JS.split JS.nl commit) < 5)%nat) as [Hs | Hs].
    + right. rewrite processCommit_short by done. split; [done | by left].
    + destruct (JS.split JS.nl commit) as [|h [|e [|m [|t stats]]]] eqn:Hl;
        simpl in Hs; try lia.
      destruct stats as [|x stats _] using rev_ind; [simpl in Hs; lia |].
      rewrite (processCommit_fields newDate commit h e m t stats x Hl).
      destruct IH as [(commits & -> & Hlen & Hall) | [-> Hex]].
      * left. eexists. split; [reflexivity |]. split; [simpl; by rewrite Hlen |].
        constructor; [| done]. rewrite Hl. simpl. rewrite length_app. simpl. lia.
      * right. split; [done | by right].
Qed.

(** ** The rows of the export *)

Lemma noDollar_cons (c : ascii) (s : string) :
  noDollar (String c s) ↔ c ≠ "$"%char ∧ noDollar s.
Proof.
  unfold noDollar. rewrite includes_cons, startsWith_cons, startsWith_nil.
  destruct (Ascii.eqb_spec "$" c) as [<- | Hne]; cbn [orb].
  - split; [done | by intros [? _]].
  - split; [intros H; split; [congruence | exact H] | by intros [_ ?]].
Qed.

Lemma noDollar_append (a b : string) : noDollar (a ++ b) ↔ noDollar a ∧ noDollar b.
Proof.
  induction a as [|c a IH].
  - rewrite append_nil_l. split; [by split | by intros [_ ?]].
  - rewrite append_cons, !noDollar_cons, IH. tauto.
Qed.

Lemma noDollar_uint (d : Decimal.uint) : noDollar (NilEmpty.string_of_uint d).
Proof.
  induction d; simpl; [done | apply noDollar_cons; by split ..].
Qed.

Lemma noDollar_Z_toString (z : Z) : noDollar (JS.Z_toString z).
Proof.
  unfold JS.Z_toString, NilZero.string_of_int, NilZero.string_of_uint.
  destruct (Z.to_int z) as [d | d].
  - destruct d; [done | apply noDollar_uint ..].
  - apply noDollar_cons. split; [done |].
    destruct d; [done | apply noDollar_uint ..].
Qed.

Lemma expand_plain (matched before after replacement : string) :
  noDollar replacement →
  Replace.expand matched before after replacement = replacement.
Proof.
  induction replacement as [|c r IH]; [done |].
  intros [Hc Hr]%noDollar_cons. cbn [Replace.expand].
  destruct (Ascii.eqb_spec c "$"); [done |]. cbn [negb]. by rewrite IH.
Qed.

Lemma indexOf_after (pattern' a b : string) :
  noDollar a →
  Replace.indexOf (String "$" pattern') (a ++ String "$" pattern' ++ b)
  = Some (String.length a).
Proof.
  intros Ha. induction a as [|c a IH].
  - rewrite append_nil_l.
    assert (H : JS.startsWith (String "$" pattern') (String "$" pattern' ++ b) = true)
      by apply startsWith_append.
    rewrite append_cons in *. cbn [Replace.indexOf]. by rewrite H.
  - apply noDollar_cons in Ha as [Hc Ha]. rewrite append_cons.
    cbn [Replace.indexOf]. rewrite startsWith_cons.
    destruct (Ascii.eqb_spec "$" c); [done |]. by rewrite (IH Ha).
Qed.

Lemma substring_prefix (a b : string) : String.substring 0 (String.length a) (a ++ b) = a.
Proof. induction a as [|c a IH]; [by destruct b | rewrite append_cons; simpl; by rewrite IH]. Qed.

Lemma substring_all (b : string) : String.substring 0 (String.length b) b = b.
Proof. induction b as [|c b IH]; [done | simpl; by rewrite IH]. Qed.

Lemma substring_suffix (a b : string) (n : nat) :
  String.substring (String.length a) n (a ++ b) = String.substring 0 n b.
Proof. induction a as [|c a IH]; [done | rewrite append_cons; simpl; by rewrite IH]. Qed.

(** The replacement of a placeholder that follows a text without [$], by
    a text without [$]. *)
Lemma replace_plain (pattern' replacement a b : string) :
  noDollar a → noDollar replacement →
  Replace.replace (String "$" pattern') replacement (a ++ String "$" pattern' ++ b)
  = a ++ replacement ++ b.
Proof.
  intros Ha Hr. unfold Replace.replace. rewrite (indexOf_after _ _ _ Ha).
  rewrite substring_prefix, (expand_plain _ _ _ _ Hr).
  f_equal. f_equal.
  rewrite <- length_append, <- append_assoc, substring_suffix.
  rewrite !length_append.
  replace (String.length a + String.length (String "$" pattern') + String.length b
           - (String.length a + String.length (String "$" pattern')))%nat
    with (String.length b) by lia.
  apply substring_all.
Qed.

(** The row of a commit with a valid date and no [$] in a text. *)
Lemma csvRow_columns (toISOString : Z → string) (c : Commit) (ms : Z) :
  timestamp c = TimeValue ms →
  noDollar (hash c) → noDollar (toISOString ms) → noDollar (author c) →
  noDollar (message c) →
  csvRow toISOString c
  = inr (hash c ++ "," ++ toISOString ms ++ "," ++ author c ++ ","
         ++ JS.Z_toString (Z.of_N (changes c)) ++ "," ++ message c).
Proof.
  intros Ht Hh Hi Ha Hm. unfold csvRow. rewrite Ht. f_equal.
  pose proof (noDollar_Z_toString (Z.of_N (changes c))) as Hc.
  assert (Hcomma : noDollar ",") by done.
  change TEMPLATE with ("" ++ "$hash" ++ ",$timestamp,$author,$changes,$message").
  rewrite replace_plain by done. rewrite append_nil_l.
  change ",$timestamp,$author,$changes,$message"
    with ("," ++ "$timestamp" ++ ",$author,$changes,$message").
  rewrite <- (append_assoc (hash c) ",").
  rewrite replace_plain; [| by apply noDollar_append | done].
  change ",$author,$changes,$message" with ("," ++ "$author" ++ ",$changes,$message").
  rewrite <- (append_assoc (toISOString ms) ","), <- (append_assoc (hash c ++ ",")).
  rewrite replace_plain; [| by repeat (apply noDollar_append; split) | done].
  change ",$changes,$message" with ("," ++ "$changes" ++ ",$message").
  rewrite <- (append_assoc (author c) ","), <- (append_assoc ((hash c ++ ",") ++ _)).
  rewrite replace_plain; [| by repeat (apply noDollar_append; split) | done].
  change ",$message" with ("," ++ "$message" ++ "").
  rewrite <- (append_assoc (JS.Z_toString _) ","), <- (append_assoc (((hash c ++ ",") ++ _) ++ _)).
  rewrite replace_plain; [| by repeat (apply noDollar_append; split) | done].
  rewrite append_nil_r, !append_assoc. done.
Qed.

(** ** The text of the export *)

Lemma concat_cons (x : string) (l : list string) :
  String.concat "" (x :: l) = x ++ String.concat "" l.
Proof. destruct l; [by rewrite append_nil_r | done]. Qed.

Lemma csvRows_lines (toISOString : Z → string) (commits : list Commit) (buffer : string) :
  Forall (plainCommit toISOString) commits →
  csvRows toISOString buffer commits
  = inr (buffer ++ String.concat ""
           ((λ c, JS.nl ++ csvLine (isoText toISOString c) c) <$> commits)).
Proof.
  intros Hplain. revert buffer.
  induction Hplain as [|c commits (Hvalid & Hh & Hi & Ha & Hm) _ IH]; intros buffer.
  - simpl. by rewrite append_nil_r.
  - cbn [csvRows]. unfold isoText in Hi.
    destruct (timestamp c) as [|ms] eqn:Ht; [done |].
    rewrite (csvRow_columns toISOString c ms Ht Hh Hi Ha Hm), IH.
    f_equal. rewrite fmap_cons, concat_cons. unfold csvLine at 2, isoText at 2.
    rewrite Ht. by rewrite !append_assoc.
Qed.

(** X16.  The export of commits with valid dates and no [$] in their texts is the
    header row and then one row for each commit, in the order of the log,
    each row after a line feed: the columns hash, timestamp, author, changes
    and message with a comma between them and no quoting, so that a comma in
    a message stays a comma of the row.  With no commit the header is all. *)
Theorem csvBuffer_text (toISOString : Z → string) (commits : list Commit) :
  Forall (plainCommit toISOString) commits →
  csvBuffer toISOString commits
  = inr ("hash,timestamp,author,changes,message"
         ++ String.concat ""
              ((λ c, JS.nl ++ csvLine (isoText toISOString c) c) <$> commits)).
Proof. intros Hplain. unfold csvBuffer. by rewrite csvRows_lines. Qed.

Lemma csvRows_error (toISOString : Z → string) (commits : list Commit) (buffer : string) :
  (∃ text, csvRows toISOString buffer commits = inr text
           ∧ Forall (λ c, timestamp c ≠ InvalidDate) commits)
  ∨ (csvRows toISOString buffer commits = inl JS.RangeError
     ∧ Exists (λ c, timestamp c = InvalidDate) commits).
Proof.
  revert buffer. induction commits as [|c commits IH]; intros buffer.
  - left. by exists buffer.
  - cbn [csvRows]. unfold csvRow. destruct (timestamp c) as [|ms] eqn:Ht.
    + right. split; [done | by left].
    + destruct (IH (buffer ++ JS.nl ++
        Replace.replace "$message" (message c)
          (Replace.replace "$changes" (JS.Z_toString (Z.of_N (changes c)))
             (Replace.replace "$author" (author c)
                (Replace.replace "$timestamp" (toISOString ms)
                   (Replace.replace "$hash" (hash c) TEMPLATE))))))
        as [(text & -> & Hall) | [-> Hex]].
      * left. exists text. split; [done |]. constructor; [by rewrite Ht | done].
      * right. split; [done | by right].
Qed.

(** X17.  The export fails exactly when some commit has the invalid date, with
    the [RangeError] of [toISOString], and then gives no text at all. *)
Theorem csvBuffer_invalid_date (toISOString : Z → string) (commits : list Commit) :
  (csvBuffer toISOString commits = inl JS.RangeError
   ↔ ∃ c, c ∈ commits ∧ timestamp c = InvalidDate)
  ∧ ((∃ text, csvBuffer toISOString commits = inr text)
     ↔ ∀ c, c ∈ commits → timestamp c ≠ InvalidDate)
  ∧ csvBuffer toISOString commits ≠ inl JS.TypeError.
Proof.
  unfold csvBuffer.
  destruct (csvRows_error toISOString commits csvHeader)
    as [(text & Ht & Hall) | [He Hex]].
  - rewrite Ht. rewrite Forall_forall in Hall. split; [| split; [| done]].
    + split; [done |]. intros (c & Hc & Hi). by destruct (Hall c Hc).
    + split; [done | by eauto].
  - rewrite He. rewrite Exists_exists in Hex. split; [| split; [| done]].
    + by split.
    + split; [by intros [? ?] |]. intros Hall. destruct Hex as (c & Hc & Hi).
      by destruct (Hall c Hc).
Qed.

Lemma csvBuffer_text_witness :
  csvBuffer (λ _, "2023-11-14T22:13:25.000Z") [commitAt "4f2a9c1e" (TimeValue 1700000005000)]
  = inr ("hash,timestamp,author,changes,message" ++ JS.nl
         ++ "4f2a9c1e,2023-11-14T22:13:25.000Z,dev,3,update the parser").
Proof.
  refine (csvBuffer_text (λ _, "2023-11-14T22:13:25.000Z")
            [commitAt "4f2a9c1e" (TimeValue 1700000005000)] _).
  repeat constructor; done.
Defined.

(** What [replace] makes of a [$] in a message: the row is not the message
    as it was written. *)
Lemma csvRow_dollar_example :
  csvRow (λ _, "2023-11-14T22:13:25.000Z")
    {| hash := "4f2a9c1e"; author := "dev"; message := "cost: $$5, was $&";
       timestamp := TimeValue 1700000005000; changes := 3 |}
  = inr "4f2a9c1e,2023-11-14T22:13:25.000Z,dev,3,cost: $5, was $message".
Proof. reflexivity. Qed.

(** ** The runs of the script *)

Lemma authorDetailsThrow_single (threshold : Z) (commits : list Commit) :
  authorDetailsThrow (scan threshold commits) = true
  ↔ ∃ a, length (commitsBy a commits) = 1%nat.
Proof.
  unfold authorDetailsThrow. rewrite existsb_exists. split.
  - intros ([a info] & Hin & Hone). apply list_elem_of_In, elem_of_map_to_list in Hin.
    rewrite scan_authors_lookup in Hin. exists a.
    destruct (commitsBy a commits) as [|c theirs]; [done |].
    injection Hin as <-. cbn [AuthorInfo.commitCount] in Hone.
    apply N.eqb_eq in Hone. simpl in *. lia.
  - intros [a Hone].
    exists (a, {| AuthorInfo.commitCount := 1;
                  AuthorInfo.changes := sumChanges (commitsBy a commits) |}).
    split; [| done]. apply list_elem_of_In, elem_of_map_to_list.
    rewrite scan_authors_lookup.
    destruct (commitsBy a commits) as [|c [|c' theirs]]; simpl in Hone; try lia. done.
Qed.

Lemma Prog_bind_liftE_inr {A B} (a : A) (k : A → Prog B) :
  (Prog.liftE (inr a) ≫= k) = k a.
Proof.
  unfold mbind, Prog_bind, Prog.bind, Prog.liftE, Prog.ret.
  by destruct (k a) as [effects [o | b]].
Qed.

Section Runs.

Variable platform : Path.Platform.
Variable normalize : string → string.
Variable execSync : string → option string.
Variable writeFileSync : string → string → bool.
Variable newDate : string → Date.
Variable toISOString : Z → string.
Variable render : Argv → list Commit → Scan → N → option Q → option Q → string.
Variable argv : Argv.
Variable rawLog : string.
Variable commits : list Commit.

Hypothesis retrieved : execSync (gitLogCommand normalize argv) = Some rawLog.
Hypothesis parsed : parseLog newDate rawLog = inr commits.

Lemma main_after_parse :
  main platform normalize execSync writeFileSync newDate toISOString render argv
  = Prog.run (Prog.perform (ExecSync (gitLogCommand normalize argv)) ;;
              checkOptions argv ;;
              exportCsv platform writeFileSync toISOString argv commits ;;
              checkHistory commits ;;
              report render argv commits).
Proof.
  unfold main, script, getLog. rewrite retrieved. simpl.
  by rewrite parsed, Prog_bind_liftE_inr.
Qed.

Lemma main_export :
  verbose argv && concise argv = false → csv argv = true →
  main platform normalize execSync writeFileSync newDate toISOString render argv
  = match csvBuffer toISOString commits with
    | inl e => ([ExecSync (gitLogCommand normalize argv)], Uncaught e)
    | inr buffer =>
        if writeFileSync (outFile platform (out argv)) buffer
        then ([ExecSync (gitLogCommand normalize argv);
               WriteFileSync (outFile platform (out argv)) buffer;
               ConsoleLog ("Commit history saved to '" ++ outFile platform (out argv) ++ "'.")],
              Exit 0)
        else ([ExecSync (gitLogCommand normalize argv);
               WriteFileSync (outFile platform (out argv)) buffer;
               ConsoleError ("Could not save file to '" ++ outFile platform (out argv) ++ "'!")],
              Exit 1)
    end.
Proof.
  intros Hboth Hcsv. rewrite main_after_parse. unfold checkOptions, exportCsv.
  rewrite Hboth, Hcsv. simpl.
  destruct (csvBuffer toISOString commits) as [e | buffer]; [done |]. simpl.
  by destruct (writeFileSync _ buffer).
Qed.

Lemma main_report :
  verbose argv && concise argv = false → csv argv = false →
  (2 ≤ length commits)%nat →
  ∃ total mean,
    totalChanges commits = inr total
    ∧ meanCommitTime (timeDifferences (scan (threshold argv) commits)) = inr mean
    ∧ main platform normalize execSync writeFileSync newDate toISOString render argv
      = if verbose argv && (authorDetailsThrow (scan (threshold argv) commits)
                            || extremesNull (scan (threshold argv) commits))
        then ([ExecSync (gitLogCommand normalize argv)], Uncaught JS.TypeError)
        else ([ExecSync (gitLogCommand normalize argv);
               ConsoleLog (render argv commits (scan (threshold argv) commits) total mean
                             (medianCommitTime
                                (timeDifferences (scan (threshold argv) commits))))],
              Exit 0).
Proof.
  intros Hboth Hcsv Hlen. rewrite main_after_parse.
  unfold checkOptions, exportCsv, checkHistory, report. rewrite Hboth, Hcsv.
  assert (Hl : (length commits <? 2)%nat = false) by (apply Nat.ltb_ge; lia).
  rewrite Hl.
  assert (Htotal : ∃ total, totalChanges commits = inr total).
  { unfold totalChanges. destruct commits; [simpl in Hlen; lia | by eexists]. }
  destruct Htotal as [total Htotal].
  assert (Hmean : ∃ mean, meanCommitTime
            (timeDifferences (scan (threshold argv) commits)) = inr mean).
  { pose proof (timeDifferences_length (threshold argv) commits) as Htd.
    destruct (timeDifferences (scan (threshold argv) commits)); [simpl in Htd; lia |].
    by eexists. }
  destruct Hmean as [mean Hmean].
  exists total, mean. split; [done |]. split; [done |].
  rewrite Htotal, Hmean. simpl.
  destruct (verbose argv) eqn:Hv; simpl.
  - assert (Hc : concise argv = false) by (by destruct (concise argv)).
    rewrite Hc. simpl.
    destruct (authorDetailsThrow _) eqn:Ha; simpl; [done |].
    by destruct (extremesNull _).
  - by rewrite andb_false_r.
Qed.

End Runs.

(** X19.  The export needs no history: with [--csv], whatever the number of
    commits, none included, the run writes the file [outFile] names and ends
    with code 0, or with code 1 when the file cannot be written; no statistics
    are computed and no report is printed.  A commit with the invalid date
    ends the run in a [RangeError] before anything is written. *)
Theorem export_run
    (platform : Path.Platform) (normalize : string → string)
    (execSync : string → option string) (writeFileSync : string → string → bool)
    (newDate : string → Date) (toISOString : Z → string)
    (render : Argv → list Commit → Scan → N → option Q → option Q → string)
    (argv : Argv) (rawLog : string) (commits : list Commit) :
  execSync (gitLogCommand normalize argv) = Some rawLog →
  parseLog newDate rawLog = inr commits →
  verbose argv && concise argv = false → csv argv = true →
  ((∀ c, c ∈ commits → timestamp c ≠ InvalidDate) →
     ∃ buffer, csvBuffer toISOString commits = inr buffer
       ∧ main platform normalize execSync writeFileSync newDate toISOString render argv
         = if writeFileSync (outFile platform (out argv)) buffer
           then ([ExecSync (gitLogCommand normalize argv);
                  WriteFileSync (outFile platform (out argv)) buffer;
                  ConsoleLog ("Commit history saved to '"
                              ++ outFile platform (out argv) ++ "'.")],
                 Exit 0)
           else ([ExecSync (gitLogCommand normalize argv);
                  WriteFileSync (outFile platform (out argv)) buffer;
                  ConsoleError ("Could not save file to '"
                                ++ outFile platform (out argv) ++ "'!")],
                 Exit 1))
  ∧ ((∃ c, c ∈ commits ∧ timestamp c = InvalidDate) →
     main platform normalize execSync writeFileSync newDate toISOString render argv
     = ([ExecSync (gitLogCommand normalize argv)], Uncaught JS.RangeError)).
Proof.
  intros Hr Hp Hboth Hcsv.
  rewrite (main_export platform normalize execSync writeFileSync newDate toISOString
             render argv rawLog commits Hr Hp Hboth Hcsv).
  unfold csvBuffer.
  destruct (csvRows_error toISOString commits csvHeader)
    as [(text & -> & Hall) | [-> Hex]].
  - split; [by eauto |]. rewrite Forall_forall in Hall.
    intros (c & Hc & Hi). by destruct (Hall c Hc).
  - split; [| done]. rewrite Exists_exists in Hex. destruct Hex as (c & Hc & Hi).
    intros Hall. by destruct (Hall c Hc).
Qed.

Lemma export_run_witness :
  main Path.posix id twoCommitRepository (λ _ _, true) (λ _, TimeValue 0)
       (λ _, "1970-01-01T00:00:00.000Z") plainReport (exportTo "export/")
  = ([ExecSync (gitLogCommand id (exportTo "export/"));
      WriteFileSync "export/commits.csv"
        ("hash,timestamp,author,changes,message" ++ JS.nl
         ++ "4f2a9c1e,1970-01-01T00:00:00.000Z,dev,16,Add the log parser" ++ JS.nl
         ++ "9d3e5f70,1970-01-01T00:00:00.000Z,ops,5,");
      ConsoleLog "Commit history saved to 'export/commits.csv'."],
     Exit 0).
Proof.
  destruct (export_run Path.posix id twoCommitRepository (λ _ _, true) (λ _, TimeValue 0)
              (λ _, "1970-01-01T00:00:00.000Z") plainReport (exportTo "export/")
              (logText [exampleBlock1; exampleBlock2])
              [ {| hash := "4f2a9c1e"; author := "dev"; message := "Add the log parser";
                   timestamp := TimeValue 0; changes := 16 |};
                {| hash := "9d3e5f70"; author := "ops"; message := "";
                   timestamp := TimeValue 0; changes := 5 |} ]
              eq_refl eq_refl eq_refl eq_refl) as [Hok _].
  destruct Hok as (buffer & Hb & Hm).
  - intros c Hc. repeat (apply elem_of_cons in Hc as [-> | Hc]); try done.
    by apply elem_of_nil in Hc.
  - rewrite Hm. injection Hb as <-. reflexivity.
Defined.

(** X20.  Without [--csv], a log of fewer than two commits, the empty log
    included, ends the run with the message of the single commit and code 1,
    before any statistic is computed. *)
Theorem short_history_run
    (platform : Path.Platform) (normalize : string → string)
    (execSync : string → option string) (writeFileSync : string → string → bool)
    (newDate : string → Date) (toISOString : Z → string)
    (render : Argv → list Commit → Scan → N → option Q → option Q → string)
    (argv : Argv) (rawLog : string) (commits : list Commit) :
  execSync (gitLogCommand normalize argv) = Some rawLog →
  parseLog newDate rawLog = inr commits →
  verbose argv && concise argv = false → csv argv = false →
  (length commits < 2)%nat →
  main platform normalize execSync writeFileSync newDate toISOString render argv
  = ([ExecSync (gitLogCommand normalize argv);
      ConsoleError "This repo only has one commit. I need at least two commits to provide a meaningful analysis."],
     Exit 1).
Proof.
  intros Hr Hp Hboth Hcsv Hlen.
  rewrite (main_after_parse platform normalize execSync writeFileSync newDate toISOString
             render argv rawLog commits Hr Hp).
  unfold checkOptions, exportCsv, checkHistory.
  rewrite Hboth, Hcsv. apply Nat.ltb_lt in Hlen. by rewrite Hlen.
Qed.

Lemma short_history_run_witness :
  main Path.posix id (λ _, Some "") (λ _ _, true) (λ _, InvalidDate) (λ _, "")
       plainReport plainMode
  = ([ExecSync (gitLogCommand id plainMode);
      ConsoleError "This repo only has one commit. I need at least two commits to provide a meaningful analysis."],
     Exit 1).
Proof.
  refine (short_history_run Path.posix id (λ _, Some "") (λ _ _, true) (λ _, InvalidDate)
            (λ _, "") plainReport plainMode "" [] eq_refl eq_refl eq_refl eq_refl _).
  simpl. lia.
Defined.

(** X21.  Without [--verbose], a history of two commits or more always gives a
    report: the run prints it and ends with code 0, whatever the commits
    are. *)
Theorem plain_report_run
    (platform : Path.Platform) (normalize : string → string)
    (execSync : string → option string) (writeFileSync : string → string → bool)
    (newDate : string → Date) (toISOString : Z → string)
    (render : Argv → list Commit → Scan → N → option Q → option Q → string)
    (argv : Argv) (rawLog : string) (commits : list Commit) :
  execSync (gitLogCommand normalize argv) = Some rawLog →
  parseLog newDate rawLog = inr commits →
  csv argv = false → verbose argv = false →
  (2 ≤ length commits)%nat →
  ∃ total mean,
    totalChanges commits = inr total
    ∧ meanCommitTime (timeDifferences (scan (threshold argv) commits)) = inr mean
    ∧ main platform normalize execSync writeFileSync newDate toISOString render argv
      = ([ExecSync (gitLogCommand normalize argv);
          ConsoleLog (render argv commits (scan (threshold argv) commits) total mean
                        (medianCommitTime
                           (timeDifferences (scan (threshold argv) commits))))],
         Exit 0).
Proof.
  intros Hr Hp Hcsv Hv Hlen.
  destruct (main_report platform normalize execSync writeFileSync newDate toISOString
              render argv rawLog commits Hr Hp) as (total & mean & Ht & Hm & Hmain);
    [by rewrite Hv | done | done |].
  exists total, mean. split; [done |]. split; [done |].
  by rewrite Hmain, Hv.
Qed.

Lemma plain_report_run_witness :
  main Path.posix id twoCommitRepository (λ _ _, true) exampleDate (λ _, "")
       plainReport plainMode
  = ([ExecSync (gitLogCommand id plainMode); ConsoleLog "report"], Exit 0).
Proof.
  destruct (plain_report_run Path.posix id twoCommitRepository (λ _ _, true) exampleDate
              (λ _, "") plainReport plainMode (logText [exampleBlock1; exampleBlock2])
              [ {| hash := "4f2a9c1e"; author := "dev"; message := "Add the log parser";
                   timestamp := TimeValue 1614852000000; changes := 16 |};
                {| hash := "9d3e5f70"; author := "ops"; message := "";
                   timestamp := InvalidDate; changes := 5 |} ]
              eq_refl eq_refl eq_refl eq_refl) as (total & mean & _ & _ & Hmain).
  - simpl. lia.
  - exact Hmain.
Defined.

(** X22.  With [--verbose] the report of two commits or more ends in a
    [TypeError], nothing printed, exactly when some author has one commit
    only, whose smallest commit is looked for after the largest was taken, or
    when an extreme kept its null references; otherwise it is printed.  With
    dates that can be read, none before the epoch, no extreme keeps them, and
    the single commit of an author is the one cause. *)
Theorem verbose_report_run
    (platform : Path.Platform) (normalize : string → string)
    (execSync : string → option string) (writeFileSync : string → string → bool)
    (newDate : string → Date) (toISOString : Z → string)
    (render : Argv → list Commit → Scan → N → option Q → option Q → string)
    (argv : Argv) (rawLog : string) (commits : list Commit) :
  execSync (gitLogCommand normalize argv) = Some rawLog →
  parseLog newDate rawLog = inr commits →
  csv argv = false → verbose argv = true → concise argv = false →
  (2 ≤ length commits)%nat →
  (main platform normalize execSync writeFileSync newDate toISOString render argv
   = ([ExecSync (gitLogCommand normalize argv)], Uncaught JS.TypeError)
   ↔ (∃ a, length (commitsBy a commits) = 1%nat)
     ∨ extremesNull (scan (threshold argv) commits) = true)
  ∧ (snd (main platform normalize execSync writeFileSync newDate toISOString render argv)
     = Exit 0
     ↔ ¬ ((∃ a, length (commitsBy a commits) = 1%nat)
          ∨ extremesNull (scan (threshold argv) commits) = true))
  ∧ (epochDates commits → extremesNull (scan (threshold argv) commits) = false).
Proof.
  intros Hr Hp Hcsv Hv Hc Hlen.
  destruct (main_report platform normalize execSync writeFileSync newDate toISOString
              render argv rawLog commits Hr Hp) as (total & mean & Ht & Hm & Hmain);
    [by rewrite Hv, Hc | done | done |].
  split; [| split]; [| | by apply epochDates_extremes].
  all: rewrite Hmain, Hv; cbn [andb];
    rewrite <- (authorDetailsThrow_single (threshold argv) commits).
  all: destruct (authorDetailsThrow _); cbn [orb];
    [| destruct (extremesNull _)].
  - split; [intros _; by left | done].
  - split; [intros _; by right | done].
  - split; [intros [=] | by intros [? | ?]].
  - split; [intros [=] |]. intros H. destruct H. by left.
  - split; [intros [=] |]. intros H. destruct H. by right.
  - split; [| done]. by intros _ [? | ?].
Qed.


Lemma verbose_report_run_witness :
  main Path.posix id twoCommitRepository (λ _ _, true) exampleDate (λ _, "")
       plainReport verboseMode
  = ([ExecSync (gitLogCommand id verboseMode)], Uncaught JS.TypeError).
Proof.
  refine (proj2 (proj1 (verbose_report_run Path.posix id twoCommitRepository (λ _ _, true)
            exampleDate (λ _, "") plainReport verboseMode
            (logText [exampleBlock1; exampleBlock2])
            [ {| hash := "4f2a9c1e"; author := "dev"; message := "Add the log parser";
                 timestamp := TimeValue 1614852000000; changes := 16 |};
              {| hash := "9d3e5f70"; author := "ops"; message := "";
                 timestamp := InvalidDate; changes := 5 |} ]
            eq_refl eq_refl eq_refl eq_refl eq_refl _)) _).
  - simpl. lia.
  - left. exists "dev". reflexivity.
Defined.

(** X23.  A run calls git once, first, and never again.  It ends with code 0
    exactly when it has printed to the standard output, with code 1 exactly
    when it has printed an error message, and in an exception otherwise,
    nothing printed; it writes a file only under [--csv]. *)
Theorem run_discipline
    (platform : Path.Platform) (normalize : string → string)
    (execSync : string → option string) (writeFileSync : string → string → bool)
    (newDate : string → Date) (toISOString : Z → string)
    (render : Argv → list Commit → Scan → N → option Q → option Q → string)
    (argv : Argv) :
  ∃ rest,
    fst (main platform normalize execSync writeFileSync newDate toISOString render argv)
    = ExecSync (gitLogCommand normalize argv) :: rest
    ∧ (∀ command, ExecSync command ∉ rest)
    ∧ ((∃ text, ConsoleLog text ∈ rest)
       ↔ snd (main platform normalize execSync writeFileSync newDate toISOString render argv)
         = Exit 0)
    ∧ ((∃ text, ConsoleError text ∈ rest)
       ↔ snd (main platform normalize execSync writeFileSync newDate toISOString render argv)
         = Exit 1)
    ∧ (∀ code,
         snd (main platform normalize execSync writeFileSync newDate toISOString render argv)
         = Exit code → code = 0%Z ∨ code = 1%Z)
    ∧ (∀ file data, WriteFileSync file data ∈ rest → csv argv = true).
Proof.
  unfold main, script, getLog, checkOptions, exportCsv, checkHistory, report.
  destruct (execSync (gitLogCommand normalize argv)) as [rawLog|]; simpl;
    [| eexists; split; [reflexivity |]; set_solver].
  destruct (parseLog newDate rawLog) as [e|commits]; simpl;
    [eexists; split; [reflexivity |]; set_solver |].
  destruct (verbose argv && concise argv); simpl;
    [eexists; split; [reflexivity |]; set_solver |].
  destruct (csv argv); simpl.
  - destruct (csvBuffer toISOString commits) as [e|buffer]; simpl;
      [eexists; split; [reflexivity |]; set_solver |].
    destruct (writeFileSync _ buffer); simpl;
      eexists; (split; [reflexivity |]); set_solver.
  - destruct (length commits <? 2)%nat; simpl;
      [eexists; split; [reflexivity |]; set_solver |].
    destruct (totalChanges commits); simpl;
      [eexists; split; [reflexivity |]; set_solver |].
    destruct (verbose argv && authorDetailsThrow _); simpl;
      [eexists; split; [reflexivity |]; set_solver |].
    destruct (meanCommitTime _); simpl;
      [eexists; split; [reflexivity |]; set_solver |].
    destruct (negb (concise argv) && verbose argv && extremesNull _); simpl;
      eexists; (split; [reflexivity |]); set_solver.
Qed.

(** ** The file of the export, once more *)

(** X18.  The correction of the path is done once and for all: the file of the
    corrected path is the corrected path, on either platform. *)
Theorem outFile_idempotent (platform : Path.Platform) (path : string) :
  outFile platform (outFile platform path) = outFile platform path
  ∧ JS.endsWith (Path.sep platform) (outFile platform path) = false.
Proof.
  destruct (outFile_cases platform path) as (Hcsv & _).
  destruct (outFile_cases platform (outFile platform path)) as (_ & _ & _ & Hsame).
  split; [by apply Hsame | by apply sep_or_csv].
Qed.

(** ** The split of the log *)

Lemma split_from_nonempty (sep : string) (skip : nat) (s : string) :
  JS.split_from sep skip s ≠ [].
Proof.
  revert skip. induction s as [|c s IH]; intros skip; [done |].
  cbn [JS.split_from]. destruct skip as [|k]; [| apply IH].
  destruct (JS.startsWith sep (String c s)); [done |].
  by destruct (JS.split_from sep 0 s).
Qed.

Lemma split_from_skip_any (sep x rest : string) :
  JS.split_from sep (String.length x) (x ++ rest) = JS.split_from sep 0 rest.
Proof.
  destruct rest as [|r rest].
  - rewrite append_nil_r. apply split_from_skip_end.
  - by apply split_from_skip.
Qed.

Lemma concat_head (sep : string) (c : ascii) (piece : string) (pieces : list string) :
  String.concat sep (String c piece :: pieces) = String c (String.concat sep (piece :: pieces)).
Proof. destruct pieces; [done |]. cbn [String.concat]. by rewrite append_cons. Qed.

Lemma concat_next (sep x y : string) (l : list string) :
  String.concat sep (x :: y :: l) = x ++ sep ++ String.concat sep (y :: l).
Proof. done. Qed.

Lemma split_join_length (sep : string) (n : nat) (s : string) :
  sep ≠ "" → (String.length s ≤ n)%nat →
  String.concat sep (JS.split_from sep 0 s) = s.
Proof.
  intros Hsep. revert s. induction n as [|n IH]; intros s Hlen.
  - destruct s; [done | simpl in Hlen; lia].
  - destruct s as [|c s]; [done |]. cbn [JS.split_from].
    destruct (JS.startsWith sep (String c s)) eqn:Hs.
    + apply startsWith_inv in Hs as [rest Hrest].
      destruct sep as [|x sep']; [done |].
      rewrite append_cons in Hrest. injection Hrest as -> ->.
      cbn [String.length]. rewrite Nat.sub_1_r. cbn [Nat.pred].
      rewrite split_from_skip_any.
      pose proof (split_from_nonempty (String x sep') 0 rest) as Hne.
      destruct (JS.split_from (String x sep') 0 rest) as [|p ps] eqn:Hsplit; [done |].
      rewrite concat_next, append_nil_l, <- Hsplit, IH; [done |].
      simpl in Hlen. rewrite length_append in Hlen. lia.
    + pose proof (split_from_nonempty sep 0 s) as Hne.
      destruct (JS.split_from sep 0 s) as [|p ps] eqn:Hsplit; [done |].
      rewrite concat_head, <- Hsplit, IH; [done |]. simpl in Hlen. lia.
Qed.

(** X1.  The split loses nothing: the pieces of a text, joined again by the
    separator, are the text; so the log is the first piece and then, for each
    block, the delimiter and the block as it was before it was trimmed. *)
Theorem split_join (sep s : string) :
  sep ≠ "" → String.concat sep (JS.split sep s) = s.
Proof. intros Hsep. by apply (split_join_length sep (String.length s)). Qed.

Lemma split_join_witness :
  String.concat delimiter (JS.split delimiter logWithEmptyCommit) = logWithEmptyCommit.
Proof. by apply split_join. Defined.

(** ** The threshold and the invalid date *)

(** X8.  A higher threshold never counts more messages. *)
Theorem meaningfulMessages_antitone (low high : Z) (commits : list Commit) :
  (low ≤ high)%Z →
  (meaningfulMessages (scan high commits) ≤ meaningfulMessages (scan low commits))%N.
Proof.
  intros Hle. rewrite !scan_folds. cbn [meaningfulMessages].
  induction commits as [|c commits IH]; [done |].
  rewrite !filter_cons.
  repeat case_decide; unfold isMeaningful in *; simpl; lia.
Qed.

Lemma meaningfulMessages_antitone_witness :
  (meaningfulMessages (scan 20 threeCommits) ≤ meaningfulMessages (scan 10 threeCommits))%N.
Proof. apply meaningfulMessages_antitone. lia. Defined.

Lemma fold_left_add_NaN (l : list number) (a : number) :
  fold_left Number.add l a = NaN ↔ a = NaN ∨ NaN ∈ l.
Proof.
  revert a. induction l as [|x l IH]; intros a.
  - simpl. split; [by left | intros [? | ?%elem_of_nil]; done].
  - cbn [fold_left]. rewrite IH, elem_of_cons.
    destruct a, x; simpl; naive_solver.
Qed.

Lemma differenceOf_NaN (a b : Commit) :
  differenceOf (a, b) = NaN ↔ timestamp a = InvalidDate ∨ timestamp b = InvalidDate.
Proof.
  unfold differenceOf. simpl. destruct (timestamp a), (timestamp b); simpl; naive_solver.
Qed.

(** X12.  With two commits or more, the mean time between commits is NaN
    exactly when some commit has the invalid date: one unreadable date line
    spoils the mean of the whole history. *)
Theorem meanCommitTime_NaN (threshold : Z) (commits : list Commit) :
  (2 ≤ length commits)%nat →
  meanCommitTime (timeDifferences (scan threshold commits)) = inr None
  ↔ ∃ c, c ∈ commits ∧ timestamp c = InvalidDate.
Proof.
  intros Hlen.
  assert (Hnan : NaN ∈ timeDifferences (scan threshold commits)
                 ↔ ∃ c, c ∈ commits ∧ timestamp c = InvalidDate).
  { rewrite scan_folds. cbn [timeDifferences]. rewrite list_elem_of_fmap. split.
    - intros ([a b] & Hd & (i & Hi)%list_elem_of_lookup_1).
      apply adjacentPairs_lookup in Hi as [Ha Hb].
      symmetry in Hd. apply differenceOf_NaN in Hd as [Hd | Hd].
      + exists a. split; [by eapply list_elem_of_lookup_2 | done].
      + exists b. split; [by eapply list_elem_of_lookup_2 | done].
    - intros (c & (i & Hi)%list_elem_of_lookup_1 & Hc).
      destruct (decide (S i < length commits)%nat) as [Hlt | Hge].
      + destruct (lookup_lt_is_Some_2 commits (S i) Hlt) as [b Hb].
        exists (c, b). split; [symmetry; apply differenceOf_NaN; by left |].
        eapply list_elem_of_lookup_2. by apply adjacentPairs_lookup.
      + pose proof (lookup_lt_Some _ _ _ Hi) as Hi'.
        destruct i as [|i]; [lia |].
        destruct (lookup_lt_is_Some_2 commits i ltac:(lia)) as [a Ha].
        exists (a, c). split; [symmetry; apply differenceOf_NaN; by right |].
        eapply list_elem_of_lookup_2. by apply adjacentPairs_lookup. }
  rewrite <- Hnan.
  pose proof (timeDifferences_length threshold commits) as Hl.
  destruct (timeDifferences (scan threshold commits)) as [|d ds]; [simpl in Hl; lia |].
  cbn [meanCommitTime]. rewrite elem_of_cons.
  destruct (fold_left Number.add ds d) eqn:Hf.
  - apply fold_left_add_NaN in Hf. split; [intros _ | done].
    destruct Hf as [-> | ?]; [by left | by right].
  - simpl. split; [done |]. intros H.
    assert (Hn : fold_left Number.add ds d = NaN).
    { apply fold_left_add_NaN. destruct H as [<- | ?]; [by left | by right]. }
    by rewrite Hf in Hn.
Qed.

Lemma meanCommitTime_NaN_witness :
  meanCommitTime (timeDifferences (scan 10 withInvalidDate)) = inr None.
Proof.
  apply meanCommitTime_NaN; [simpl; lia |].
  exists (commitAt "9d3e5f70" InvalidDate). split; [right; left | done].
Defined.

(** * Where the script fails *)

(** ** A date that cannot be read *)

Lemma differenceOf_invalid (a b : Commit) :
  timestamp a = InvalidDate ∨ timestamp b = InvalidDate → differenceOf (a, b) = NaN.
Proof.
  unfold differenceOf. simpl. intros [-> | ->]; [done |]. by destruct (timestamp a).
Qed.

Section UnreadableDates.

Variable threshold : Z.
Variable commits : list Commit.

(** Every adjacent pair has a commit whose date could not be read. *)
Hypothesis unreadable :
  ∀ i a b, commits !! i = Some a → commits !! S i = Some b →
    timestamp a = InvalidDate ∨ timestamp b = InvalidDate.

Lemma unreadable_maxDifference :
  maxDifference (scan threshold commits) = maxDifference initialScan.
Proof.
  apply maxDifference_start. intros i a b Ha Hb.
  by rewrite (differenceOf_invalid a b (unreadable i a b Ha Hb)).
Qed.

Lemma unreadable_minDifference :
  minDifference (scan threshold commits) = minDifference initialScan.
Proof.
  apply minDifference_start. intros i a b Ha Hb.
  by rewrite (differenceOf_invalid a b (unreadable i a b Ha Hb)).
Qed.

Lemma unreadable_timeDifferences i d :
  timeDifferences (scan threshold commits) !! i = Some d → d = NaN.
Proof.
  intros ([a b] & Hp & <-)%timeDifferences_lookup_inv.
  apply adjacentPairs_lookup in Hp as [Ha Hb].
  by apply differenceOf_invalid, (unreadable i).
Qed.

End UnreadableDates.

(** C2 fails on the code.  The difference of a pair of commits of which one
    has a date that [Date] cannot read is NaN, and NaN is neither greater
    than the start value of [maxDifference] nor smaller than the one of
    [minDifference].  When every adjacent pair has such a commit, as the one
    pair of two commits has when one of them is dated too far in the future,
    the pass records a NaN for each pair and takes no pair at all: both
    extremes are left at their start values, with null for their commits,
    where the claim has them be the pairs of the largest and of the smallest
    difference with their two commits. *)
Theorem unreadable_date_hides_extremes (threshold : Z) (commits : list Commit) :
  (2 ≤ length commits)%nat →
  (∀ i a b, commits !! i = Some a → commits !! S i = Some b →
     timestamp a = InvalidDate ∨ timestamp b = InvalidDate) →
  length (timeDifferences (scan threshold commits)) = (length commits - 1)%nat
  ∧ (∀ i d, timeDifferences (scan threshold commits) !! i = Some d → d = NaN)
  ∧ maxDifference (scan threshold commits)
    = {| difference := Num Number.MIN_SAFE_INTEGER;
         firstCommit := None; secondCommit := None |}
  ∧ minDifference (scan threshold commits)
    = {| difference := Num Number.MAX_SAFE_INTEGER;
         firstCommit := None; secondCommit := None |}
  ∧ (∀ i a b, commits !! i = Some a → commits !! S i = Some b →
       maxDifference (scan threshold commits)
       ≠ {| difference := differenceOf (a, b);
            firstCommit := Some a; secondCommit := Some b |}
       ∧ minDifference (scan threshold commits)
         ≠ {| difference := differenceOf (a, b);
              firstCommit := Some a; secondCommit := Some b |}).
Proof.
  intros _ Hdates.
  pose proof (unreadable_maxDifference threshold commits Hdates) as Hmax.
  pose proof (unreadable_minDifference threshold commits Hdates) as Hmin.
  split; [apply timeDifferences_length |].
  split; [by apply unreadable_timeDifferences |].
  split; [exact Hmax |]. split; [exact Hmin |].
  intros i a b _ _. rewrite Hmax, Hmin. by split.
Qed.

Lemma unreadable_date_hides_extremes_witness :
  (∀ i d, timeDifferences (scan 10 withInvalidDate) !! i = Some d → d = NaN)
  ∧ maxDifference (scan 10 withInvalidDate)
    = {| difference := Num Number.MIN_SAFE_INTEGER;
         firstCommit := None; secondCommit := None |}
  ∧ minDifference (scan 10 withInvalidDate)
    = {| difference := Num Number.MAX_SAFE_INTEGER;
         firstCommit := None; secondCommit := None |}.
Proof.
  destruct (unreadable_date_hides_extremes 10 withInvalidDate)
    as (_ & Hd & Hmax & Hmin & _).
  - simpl. lia.
  - intros [|[|i]] a b Ha Hb; simpl in Ha, Hb.
    + right. injection Hb as <-. reflexivity.
    + discriminate Hb.
    + discriminate Ha.
  - split; [exact Hd |]. split; [exact Hmax | exact Hmin].
Defined.

(** C9 fails on the code.  On a history of two commits or more in which
    every adjacent pair has a commit whose date [Date] cannot read, the pass
    overwrites neither start value, the four commit references of the
    extremes are still null after it, and the report that reads
    [minDifference.firstCommit.hash], the one of [--verbose], ends the run in
    an uncaught [TypeError] with nothing printed; without [--verbose] the
    report is printed, with the start values for the two extremes. *)
Theorem null_extremes_reach_report
    (platform : Path.Platform) (normalize : string → string)
    (execSync : string → option string) (writeFileSync : string → string → bool)
    (newDate : string → Date) (toISOString : Z → string)
    (render : Argv → list Commit → Scan → N → option Q → option Q → string)
    (argv : Argv) (rawLog : string) (commits : list Commit) :
  execSync (gitLogCommand normalize argv) = Some rawLog →
  parseLog newDate rawLog = inr commits →
  csv argv = false → verbose argv && concise argv = false →
  (2 ≤ length commits)%nat →
  (∀ i a b, commits !! i = Some a → commits !! S i = Some b →
     timestamp a = InvalidDate ∨ timestamp b = InvalidDate) →
  firstCommit (minDifference (scan (threshold argv) commits)) = None
  ∧ secondCommit (minDifference (scan (threshold argv) commits)) = None
  ∧ firstCommit (maxDifference (scan (threshold argv) commits)) = None
  ∧ secondCommit (maxDifference (scan (threshold argv) commits)) = None
  ∧ (verbose argv = true →
     main platform normalize execSync writeFileSync newDate toISOString render argv
     = ([ExecSync (gitLogCommand normalize argv)], Uncaught JS.TypeError))
  ∧ (verbose argv = false →
     ∃ text,
       main platform normalize execSync writeFileSync newDate toISOString render argv
       = ([ExecSync (gitLogCommand normalize argv); ConsoleLog text], Exit 0)).
Proof.
  intros Hr Hp Hcsv Hmodes Hlen Hdates.
  pose proof (unreadable_maxDifference (threshold argv) commits Hdates) as Hmax.
  pose proof (unreadable_minDifference (threshold argv) commits Hdates) as Hmin.
  destruct (main_report platform normalize execSync writeFileSync newDate toISOString
              render argv rawLog commits Hr Hp Hmodes Hcsv Hlen)
    as (total & mean & _ & _ & Hmain).
  rewrite Hmax, Hmin. do 4 (split; [reflexivity |]).
  assert (Hnull : extremesNull (scan (threshold argv) commits) = true).
  { unfold extremesNull. by rewrite Hmax, Hmin. }
  rewrite Hnull, orb_true_r in Hmain.
  split; intros Hv; rewrite Hv in Hmain; cbn [andb] in Hmain; [exact Hmain |].
  eexists. exact Hmain.
Qed.

Lemma null_extremes_reach_report_witness :
  main Path.posix id (λ _, Some unreadableDateLog) (λ _ _, true) exampleDate (λ _, "")
       plainReport verboseMode
  = ([ExecSync (gitLogCommand id verboseMode)], Uncaught JS.TypeError).
Proof.
  refine (proj1 (proj2 (proj2 (proj2 (proj2
            (null_extremes_reach_report Path.posix id (λ _, Some unreadableDateLog)
               (λ _ _, true) exampleDate (λ _, "") plainReport verboseMode
               unreadableDateLog
               [ {| hash := "4f2a9c1e"; author := "dev"; message := "Add the log parser";
                    timestamp := TimeValue 1614852000000; changes := 3 |};
                 {| hash := "9d3e5f70"; author := "dev"; message := "Add the log parser";
                    timestamp := InvalidDate; changes := 3 |} ]
               eq_refl eq_refl eq_refl eq_refl _ _))))) eq_refl).
  - simpl. lia.
  - intros [|[|i]] a b Ha Hb; simpl in Ha, Hb.
    + right. injection Hb as <-. reflexivity.
    + discriminate Hb.
    + discriminate Ha.
Defined.

(** ** Blocks that do not parse *)

(** C5 fails on the code.  A block of fewer than five lines does not parse,
    and a log that has blocks of which none parses gives no empty sequence:
    the first block ends the parse in a [TypeError].  Such is the log of a
    repository whose commits change no file.  The empty sequence is the
    result of the logs that have no block only. *)
Theorem unparsable_blocks_throw (newDate : string → Date) (rawLog : string) :
  commitStrings rawLog ≠ [] →
  Forall (λ commit, (length (JS.split JS.nl commit) < 5)%nat) (commitStrings rawLog) →
  parseLog newDate rawLog = inl JS.TypeError
  ∧ parseLog newDate rawLog ≠ inr [].
Proof.
  intros Hblocks Hshort. unfold parseLog.
  destruct (commitStrings rawLog) as [|commit rest]; [done |].
  apply Forall_cons_1 in Hshort as [Hcommit _].
  cbn [mapE]. by rewrite (processCommit_short newDate commit Hcommit).
Qed.

Lemma unparsable_blocks_throw_witness :
  commitStrings logOfEmptyCommit
  = [joinLines ["71c0a2b4"; "dev@example.com"; "Initial commit";
                "2021-03-04 10:00:00 +0000"]]
  ∧ parseLog exampleDate logOfEmptyCommit = inl JS.TypeError.
Proof.
  split; [reflexivity |].
  apply (unparsable_blocks_throw exampleDate logOfEmptyCommit).
  - vm_compute. discriminate.
  - repeat constructor.
Defined.

(** The empty sequence is the parse of the logs without a block, and of no
    other log. *)
Lemma parseLog_empty (newDate : string → Date) (rawLog : string) :
  parseLog newDate rawLog = inr [] ↔ commitStrings rawLog = [].
Proof.
  unfold parseLog. destruct (commitStrings rawLog) as [|commit rest]; [done |].
  cbn [mapE]. destruct (processCommit newDate commit); [done |].
  by destruct (mapE (processCommit newDate) rest).
Qed.

(** ** A total of zero *)

Lemma changePercent_examples :
  changePercent 16 21 = Double.ofN 76
  ∧ changePercent 1 3 = Double.ofN 33
  ∧ changePercent 9 40 = Double.ofN 23
  ∧ changePercent 23 40 = Double.ofN 57
  ∧ changePercent 21 21 = Double.ofN 100
  ∧ changePercent 0 21 = SpecFloat.S754_zero false
  ∧ changePercent 5 0 = Double.Infinity.
Proof. repeat split; reflexivity. Qed.

Lemma sumChanges_zero (commits : list Commit) :
  Forall (λ c, changes c = 0%N) commits → sumChanges commits = 0%N.
Proof.
  unfold sumChanges. induction 1 as [|c l Hc _ IH]; simpl; [done |].
  rewrite Hc, IH. reflexivity.
Qed.

(** C3 fails on the code.  Two commits or more do not make the total other
    than zero: when no commit has an insertion or a deletion, as the commits
    that touch binary files only, [totalChanges] is 0, every author has 0
    changes and [changes / totalChanges] is 0 / 0.  No guard stands before
    the division: the share of every author is NaN. *)
Theorem zero_total_divides_by_zero (threshold : Z) (commits : list Commit) :
  (2 ≤ length commits)%nat →
  Forall (λ c, changes c = 0%N) commits →
  totalChanges commits = inr 0%N
  ∧ authors (scan threshold commits) ≠ ∅
  ∧ (∀ author info, authors (scan threshold commits) !! author = Some info →
       AuthorInfo.changes info = 0%N
       ∧ changePercent (AuthorInfo.changes info) 0 = Double.NaN).
Proof.
  intros Hlen Hzero. split; [| split].
  - destruct commits as [|c commits]; [simpl in Hlen; lia |].
    unfold totalChanges. cbn [map]. rewrite fold_left_add.
    apply Forall_cons_1 in Hzero as [-> Hrest].
    change (foldr N.add 0%N (map changes commits)) with (sumChanges commits).
    by rewrite (sumChanges_zero commits Hrest).
  - destruct commits as [|c commits]; [simpl in Hlen; lia |].
    intros Hempty.
    pose proof (scan_authors_lookup threshold (c :: commits) (author c)) as Hlookup.
    rewrite Hempty, lookup_empty in Hlookup.
    unfold commitsBy in Hlookup. rewrite filter_cons_True in Hlookup by done.
    discriminate Hlookup.
  - intros a info. rewrite scan_authors_lookup.
    destruct (commitsBy a commits) as [|c theirs] eqn:Htheirs; [done |].
    intros [= <-]. cbn [AuthorInfo.changes].
    rewrite sumChanges_zero; [by split |].
    rewrite <- Htheirs. unfold commitsBy.
    apply Forall_forall. intros x [_ Hx]%list_elem_of_filter.
    rewrite Forall_forall in Hzero. by apply Hzero.
Qed.

Lemma zero_total_divides_by_zero_witness :
  ∃ commits,
    parseLog exampleDate binaryCommitsLog = inr commits
    ∧ (2 ≤ length commits)%nat
    ∧ totalChanges commits = inr 0%N
    ∧ ∀ author info, authors (scan 10 commits) !! author = Some info →
        changePercent (AuthorInfo.changes info) 0 = Double.NaN.
Proof.
  eexists. split; [reflexivity |].
  match goal with |- _ ∧ totalChanges ?l = _ ∧ _ =>
    destruct (zero_total_divides_by_zero 10 l) as (Htotal & _ & Hshare)
  end.
  - simpl. lia.
  - repeat constructor.
  - split; [simpl; lia |]. split; [exact Htotal |].
    intros a info Hinfo. exact (proj2 (Hshare a info Hinfo)).
Defined.
